(** * YCS: MoneyQuest finance simulator and Daily Finance Challenge quiz

    A shallow embedding of the two Streamlit programs of the repository,
    [src/MoneyQuest/app.py] (month-cycle finance simulator) and [src/app.py]
    (daily quiz), together with the properties stated about them.

    Modelling conventions.
    - Python [int] is [Z].
    - Python [float] is modelled by exact rationals [Q]: every float
      operation is taken without its binary64 rounding error.  [round(x)]
      and [round(x, 2)] are round-half-to-even, as in Python.
    - A Python [dict] with string keys is a [gmap string _]; [None] is
      [None] of an [option].
    - Text handled by the sanitizer is a list of Unicode code points.
    - [json.dumps] / [json.loads] are library code: documents are modelled
      after parsing, as values of type [json]. *)

From Stdlib Require Import ZArith QArith Qround Qminmax Qabs Lia Lqa Ascii String.
From stdpp Require Import base option list gmap strings.

#[local] Set Warnings "-register-all".
#[local] Open Scope Z_scope.

(** ** Python numerics *)

Module Py.

(** [round(x)] on a float: nearest integer, ties to the even one. *)
Definition round (x : Q) : Z :=
  let f := Qfloor x in
  match (x - inject_Z f ?= 1 # 2)%Q with
  | Lt => f
  | Gt => f + 1
  | Eq => if Z.even f then f else f + 1
  end.

(** [round(x, 2)] on a float. *)
Definition round2 (x : Q) : Q := (inject_Z (round (x * 100)) / 100)%Q.

(** [math.ceil]. *)
Definition ceil (x : Q) : Z := Qceiling x.

Definition ltb (x y : Q) : bool :=
  match (x ?= y)%Q with Lt => true | _ => false end.

End Py.

(** ** JSON documents (the values [json.loads] returns) *)

Inductive json :=
  | JNull
  | JBool (b : bool)
  | JInt (z : Z)
  | JFloat (q : Q)
  | JStr (s : string)
  | JArr (l : list json)
  | JObj (o : gmap string json).

Module Json.

(** [d.get(k, dflt)] on a parsed object. *)
Definition get (k : string) (dflt : json) (o : gmap string json) : json :=
  default dflt (o !! k).

(** The receiver of [.get]: anything but a dict has no such method. *)
Definition as_dict (v : json) : option (gmap string json) :=
  match v with JObj o => Some o | _ => None end.

Definition as_int (v : json) : option Z :=
  match v with JInt z => Some z | _ => None end.

Definition as_bool (v : json) : option bool :=
  match v with JBool b => Some b | _ => None end.

Definition as_str (v : json) : option string :=
  match v with JStr s => Some s | _ => None end.

Definition as_opt_str (v : json) : option (option string) :=
  match v with JNull => Some None | JStr s => Some (Some s) | _ => None end.

Definition as_list (v : json) : option (list json) :=
  match v with JArr l => Some l | _ => None end.

Definition of_opt_str (s : option string) : json :=
  match s with None => JNull | Some s => JStr s end.

(** Decode every value of an object, failing if one does not decode. *)
Definition decode_map {A} (f : json → option A) (o : gmap string json)
  : option (gmap string A) :=
  if bool_decide (map_Forall (λ _ v, is_Some (f v)) o)
  then Some (omap f o) else None.

(** Every key of [o] is one of [names]. *)
Definition keys_within (names : list string) (o : gmap string json) : bool :=
  bool_decide (map_Forall (λ k _, k ∈ names) o).

Section Coercions.

(** [int(s)] and [float(s)] on a string follow Python's literal
    grammar, which is library code. *)
Variable int_of_str : string → option Z.
Variable float_of_str : string → option Q.

(** [int(v)]; [None] is [TypeError] or [ValueError]. *)
Definition py_int (v : json) : option Z :=
  match v with
  | JInt z => Some z
  | JBool b => Some (if b then 1 else 0)
  | JFloat q => Some (Z.quot (Qnum q) (Z.pos (Qden q)))
  | JStr s => int_of_str s
  | _ => None
  end.

(** [float(v)]. *)
Definition py_float (v : json) : option Q :=
  match v with
  | JInt z => Some (inject_Z z)
  | JBool b => Some (if b then 1%Q else 0%Q)
  | JFloat q => Some q
  | JStr s => float_of_str s
  | _ => None
  end.

End Coercions.

(** The object [v] with only the keys [keep] accepts; a value that is
    not an object is left as it is. *)
Definition restrict (keep : string -> bool) (v : json) : json :=
  match v with
  | JObj o => JObj (filter (fun kv => keep kv.1 = true) o)
  | _ => v
  end.

End Json.

(** ** MoneyQuest: data model ([src/MoneyQuest/app.py]) *)

Module MoneyQuest.

Record MonthlySnapshot := mkSnapshot {
  s_month : Z;
  s_netWorth : Z;
  s_cash : Z;
  s_savings : Z;
  s_debt : Z;
  s_creditScore : Z
}.

Record Income := mkIncome {
  hoursPerWeek : Q;
  wagePerHour : Q;
  withholdingRate : Q
}.

Record PlayerState := mkPlayer {
  month : Z;
  cash : Z;
  savings : Z;
  debt : Z;
  creditScore : Z;
  income : Income;
  budget_needs : Q;
  budget_wants : Q;
  budget_savings : Q;
  choices : option (gmap string string);
  history : option (list MonthlySnapshot)
}.

(** The dataclass defaults: [Income()] and [PlayerState()]. *)
Definition Income_default : Income := mkIncome 20 15 (12 # 100).

Definition PlayerState_default : PlayerState :=
  mkPlayer 1 200 100 0 680 Income_default (5 # 10) (3 # 10) (2 # 10) None None.

(** *** Engines *)

Definition compute_net_pay (hours_per_week wage withholding_rate : Q)
  : Q * Q * Q :=
  let gross := (hours_per_week * wage * 4)%Q in
  let withheld := (gross * withholding_rate)%Q in
  let net := (gross - withheld)%Q in
  (Py.round2 gross, Py.round2 withheld, Py.round2 net).

Record Allocation := mkAlloc {
  needs_spend : Q;
  wants_spend : Q;
  savings_add : Q;
  leftover : Q
}.

(** The four amounts of [apply_budget] before the final [round(_, 2)]. *)
Definition budget_amounts
    (net_income needs_p wants_p savings_p fixed_needs_costs : Q)
  : Allocation :=
  let planned_needs := (net_income * needs_p)%Q in
  let planned_wants := (net_income * wants_p)%Q in
  let planned_savings := (net_income * savings_p)%Q in
  let remaining := Qmax 0 (net_income - fixed_needs_costs) in
  let wants := Qmax 0 (Qmin planned_wants (remaining - planned_savings)) in
  let savings := Qmax 0 (Qmin planned_savings (remaining - wants)) in
  let needs :=
    (fixed_needs_costs + Qmax 0 (planned_needs - fixed_needs_costs))%Q in
  let left := Qmax 0 (remaining - wants - savings) in
  mkAlloc needs wants savings left.

Definition apply_budget
    (net_income needs_p wants_p savings_p fixed_needs_costs : Q)
  : Allocation :=
  let a :=
    budget_amounts net_income needs_p wants_p savings_p fixed_needs_costs in
  mkAlloc (Py.round2 (needs_spend a)) (Py.round2 (wants_spend a))
          (Py.round2 (savings_add a)) (Py.round2 (leftover a)).


Definition clamp_score (nxt : Z) : Z := Z.max 300 (Z.min 850 nxt).

(** [nxt] stays an [int], so [int(round(nxt))] is [nxt]. *)
Definition update_credit_score
    (current : Z) (utilization : Q) (on_time_payment : bool) : Z :=
  let nxt := current + (if on_time_payment then 8 else -25) in
  let nxt :=
    if Py.ltb utilization (10 # 100) then nxt + 6
    else if Py.ltb utilization (30 # 100) then nxt + 2
    else if Py.ltb utilization (50 # 100) then nxt - 6
    else nxt - 12 in
  clamp_score nxt.

(** The credit-card part of [close_month]. *)
Record CardStep := mkCard {
  min_payment : Z;
  debt_after_interest : Z;
  payment : Z;
  new_debt : Z;
  on_time : bool
}.

Definition pay_full_choice (st : PlayerState) : bool :=
  bool_decide (default ∅ (choices st) !! "credit_card" = Some "pay_full").

Definition card_step (st : PlayerState) : CardStep :=
  let min_payment := Z.min 25 (debt st) in
  let debt_after_interest := Py.ceil (inject_Z (debt st) * (102 # 100)) in
  let payment :=
    if pay_full_choice st then debt_after_interest else min_payment in
  let new_debt := Z.max 0 (debt_after_interest - payment) in
  mkCard min_payment debt_after_interest payment new_debt
         (min_payment <=? payment).

Record CloseResult := mkClose {
  state' : PlayerState;
  snapshot : MonthlySnapshot;
  pay_tuple : Q * Q * Q;
  alloc_tuple : Allocation
}.

Definition close_month
    (st : PlayerState) (fixed_needs_costs : Q) (credit_limit : Z)
  : CloseResult :=
  let '(gross, withheld, net_income) :=
    compute_net_pay (hoursPerWeek (income st)) (wagePerHour (income st))
                    (withholdingRate (income st)) in
  let al :=
    apply_budget net_income (budget_needs st) (budget_wants st)
                 (budget_savings st) fixed_needs_costs in
  let card := card_step st in
  let new_cash :=
    Py.round (inject_Z (cash st) + leftover al - inject_Z (payment card)
              - wants_spend al - needs_spend al) in
  let new_savings := Py.round (inject_Z (savings st) + savings_add al) in
  let utilization :=
    if credit_limit =? 0 then 0%Q
    else (inject_Z (new_debt card) / inject_Z credit_limit)%Q in
  let new_score :=
    update_credit_score (creditScore st) utilization (on_time card) in
  let snap :=
    mkSnapshot (month st) (new_cash + new_savings - new_debt card)
               new_cash new_savings (new_debt card) new_score in
  mkClose
    (mkPlayer (month st + 1) new_cash new_savings (new_debt card) new_score
              (income st) (budget_needs st) (budget_wants st)
              (budget_savings st) (choices st)
              (Some (default [] (history st) ++ [snap])))
    snap (gross, withheld, net_income) al.

Definition default_credit_limit : Z := 500.

(** A new game's state with a card balance and a credit-card choice. *)
Definition with_debt (d : Z) (choice : string) : PlayerState :=
  mkPlayer 1 200 100 d 680 Income_default (5 # 10) (3 # 10) (2 # 10)
           (Some {[ "credit_card" := choice ]}) (Some []).

(** *** Save codec *)

Definition snapshot_to_json (h : MonthlySnapshot) : json :=
  JObj {[ "month" := JInt (s_month h);
          "netWorth" := JInt (s_netWorth h);
          "cash" := JInt (s_cash h);
          "savings" := JInt (s_savings h);
          "debt" := JInt (s_debt h);
          "creditScore" := JInt (s_creditScore h) ]}.

Definition snapshot_fields : list string :=
  ["month"; "netWorth"; "cash"; "savings"; "debt"; "creditScore"].

(** [MonthlySnapshot] built from the keywords of [h]: every field is required and no other keyword
    is accepted.  The fields are typed here, so a value that is not an
    integer is rejected, where Python would store it as it is. *)
Definition snapshot_of_json (v : json) : option MonthlySnapshot :=
  o ← Json.as_dict v;
  if Json.keys_within snapshot_fields o then
    m ← o !! "month" ≫= Json.as_int;
    n ← o !! "netWorth" ≫= Json.as_int;
    c ← o !! "cash" ≫= Json.as_int;
    s ← o !! "savings" ≫= Json.as_int;
    d ← o !! "debt" ≫= Json.as_int;
    k ← o !! "creditScore" ≫= Json.as_int;
    Some (mkSnapshot m n c s d k)
  else None.

Definition income_to_json (i : Income) : json :=
  JObj {[ "hoursPerWeek" := JFloat (hoursPerWeek i);
          "wagePerHour" := JFloat (wagePerHour i);
          "withholdingRate" := JFloat (withholdingRate i) ]}.

Definition choices_to_json (c : option (gmap string string)) : json :=
  match c with
  | None => JNull
  | Some m => JObj (JStr <$> m)
  end.

(** The object under the key [state] of a save; the history is read as
    [state.history or []]. *)
Definition state_payload (st : PlayerState) : gmap string json :=
  {[ "month" := JInt (month st);
     "cash" := JInt (cash st);
     "savings" := JInt (savings st);
     "debt" := JInt (debt st);
     "creditScore" := JInt (creditScore st);
     "income" := income_to_json (income st);
     "budget_needs" := JFloat (budget_needs st);
     "budget_wants" := JFloat (budget_wants st);
     "budget_savings" := JFloat (budget_savings st);
     "choices" := choices_to_json (choices st);
     "history" := JArr (snapshot_to_json <$> default [] (history st)) ]}.

(** The payload [export_save] hands to [json.dumps]. *)
Definition export_save (st : PlayerState) : json :=
  JObj {[ "state" := JObj (state_payload st) ]}.

(** A save document from which the fields [keep] rejects were dropped. *)
Definition partial_save (keep : string -> bool) (st : PlayerState) : json :=
  JObj {[ "state" :=
            JObj (filter (fun kv => keep kv.1 = true) (state_payload st)) ]}.

(** [dict(v)] for the choices: an object, or an empty sequence; the
    values are typed as strings here. *)
Definition choices_of_json (v : json) : option (gmap string string) :=
  match v with
  | JObj o => Json.decode_map Json.as_str o
  | JArr [] | JStr EmptyString => Some ∅
  | _ => None
  end.

(** The iteration [for h in v] of the history comprehension. *)
Definition history_of_json (v : json) : option (list MonthlySnapshot) :=
  match v with
  | JArr l => mapM snapshot_of_json l
  | JObj o => if bool_decide (o = ∅) then Some [] else None
  | JStr EmptyString => Some []
  | _ => None
  end.

Section Loader.

Variable int_of_str : string → option Z.
Variable float_of_str : string → option Q.

Let int := Json.py_int int_of_str.
Let float := Json.py_float float_of_str.

(** [import_save] on the parsed document; [None] is the result of the
    [except Exception] clause. *)
Definition import_save (data : json) : option PlayerState :=
  d ← Json.as_dict data;
  s ← Json.as_dict (Json.get "state" (JObj ∅) d);
  inc ← Json.as_dict (Json.get "income" (JObj ∅) s);
  m ← int (Json.get "month" (JInt 1) s);
  c ← int (Json.get "cash" (JInt 0) s);
  sv ← int (Json.get "savings" (JInt 0) s);
  db ← int (Json.get "debt" (JInt 0) s);
  cs ← int (Json.get "creditScore" (JInt 680) s);
  h ← float (Json.get "hoursPerWeek" (JFloat 20) inc);
  w ← float (Json.get "wagePerHour" (JFloat 15) inc);
  r ← float (Json.get "withholdingRate" (JFloat (12 # 100)) inc);
  bn ← float (Json.get "budget_needs" (JFloat (5 # 10)) s);
  bw ← float (Json.get "budget_wants" (JFloat (3 # 10)) s);
  bs ← float (Json.get "budget_savings" (JFloat (2 # 10)) s);
  ch ← choices_of_json (Json.get "choices" (JObj ∅) s);
  hi ← history_of_json (Json.get "history" (JArr []) s);
  Some (mkPlayer m c sv db cs (mkIncome h w r) bn bw bs (Some ch)
                 (Some hi)).

End Loader.

(** *** Game content and session helpers *)

(** One entry of [CHOICES]; an option maps its key to a label and a
    monthly cost, in the order the dict lists them. *)
Record Choice := mkChoice {
  c_id : string;
  c_title : string;
  c_prompt : string;
  c_options : list (string * (string * Z))
}.

Definition CHOICES : list Choice :=
  [ mkChoice "phone_plan" "Phone Plan" "Pick a plan for this month."
      [ ("basic", ("Basic ($30/mo)", 30));
        ("standard", ("Standard ($55/mo)", 55));
        ("premium", ("Premium ($80/mo)", 80)) ];
    mkChoice "transit" "Getting Around" "How do you commute?"
      [ ("bus", ("Bus Pass ($50)", 50));
        ("rideshare", ("Ride-share (~$120)", 120));
        ("bike", ("Bike (maintenance $10)", 10)) ];
    mkChoice "credit_card" "Credit Card Behavior"
      "How will you handle your card this month?"
      [ ("pay_full", ("Pay statement in full", 0));
        ("min_pay", ("Make only minimum payment", 0)) ] ].

(** [options.get(k)] on the options of a choice. *)
Fixpoint options_get (k : string) (opts : list (string * (string * Z)))
  : option (string * Z) :=
  match opts with
  | [] => None
  | (k', v) :: rest => if decide (k = k') then Some v else options_get k rest
  end.

(** The cost [fixed_needs_from_choices] adds for the choice [c]: that of
    the chosen option, when one is chosen ([chosen] is not empty) and is
    an option of [c]. *)
Definition chosen_cost (m : gmap string string) (c : Choice) : option Z :=
  chosen ← m !! c_id c;
  if decide (chosen = EmptyString) then None
  else snd <$> options_get chosen (c_options c).

Definition fixed_needs_from_choices (st : PlayerState) : Q :=
  let add (total : Q) (c : Choice) : Q :=
    match chosen_cost (default ∅ (choices st)) c with
    | Some cost => (total + inject_Z cost)%Q
    | None => total
    end in
  Py.round2 (foldl add 0%Q CHOICES).

(** [PlayerState(choices={}, history=[])], the state [get_state] and
    [reset_game] create. *)
Definition new_game : PlayerState :=
  mkPlayer 1 200 100 0 680 Income_default (5 # 10) (3 # 10) (2 # 10)
           (Some ∅) (Some []).

(** [get_state] on the entry [state] of the session state, [None] when
    the entry is absent; the state it returns is also the one it leaves
    in the session state. *)
Definition get_state (stored : option PlayerState) : PlayerState :=
  let st := default new_game stored in
  mkPlayer (month st) (cash st) (savings st) (debt st) (creditScore st)
           (income st) (budget_needs st) (budget_wants st)
           (budget_savings st) (Some (default ∅ (choices st)))
           (Some (default [] (history st))).

(** The Close Month button of the Results tab:
    [close_month(state, fixed_costs)] with the fixed costs of the
    choices and the default credit limit. *)
Definition close_month_button (st : PlayerState) : PlayerState :=
  state' (close_month st (fixed_needs_from_choices st) default_credit_limit).

(** The button pressed [n] times, nothing else changed in between. *)
Definition play_months (n : nat) (st : PlayerState) : PlayerState :=
  Nat.iter n close_month_button st.

(** *** Notions used to state the properties *)

(** A snapshot [close_month] can have written: its net worth is cash
    plus savings minus debt, its debt is not negative and its credit
    score is within the clamp. *)
Definition snapshot_ok (h : MonthlySnapshot) : Prop :=
  s_netWorth h = s_cash h + s_savings h - s_debt h
  /\ 0 <= s_debt h /\ 300 <= s_creditScore h <= 850.

(** A history entry the [MonthlySnapshot] constructor raises on: a value
    that is no object, or an object whose keys are not exactly the six
    fields. *)
Definition not_a_snapshot (x : json) : Prop :=
  match x with
  | JObj o => dom o <> list_to_set snapshot_fields
  | _ => True
  end.

End MoneyQuest.

(** ** Calendar dates ([datetime.date]) *)

Module Date.

Record t := mk { year : Z; month : Z; day : Z }.

Definition is_leap (y : Z) : bool :=
  (y mod 4 =? 0) && (negb (y mod 100 =? 0) || (y mod 400 =? 0)).

Definition days_in_month (y m : Z) : Z :=
  if m =? 2 then (if is_leap y then 29 else 28)
  else if (m =? 4) || (m =? 6) || (m =? 9) || (m =? 11) then 30
  else 31.

Definition days_before_year (y : Z) : Z :=
  let p := y - 1 in p * 365 + p / 4 - p / 100 + p / 400.

Fixpoint days_before_month (y : Z) (m : nat) : Z :=
  match m with
  | O => 0
  | S m' => days_before_month y m' + days_in_month y (Z.of_nat m)
  end.

Definition valid (d : t) : bool :=
  (1 <=? year d) && (year d <=? 9999) && (1 <=? month d)
  && (month d <=? 12) && (1 <=? day d)
  && (day d <=? days_in_month (year d) (month d)).

(** [date.toordinal()]; [(a - b).days] is the difference of ordinals. *)
Definition toordinal (d : t) : Z :=
  days_before_year (year d)
  + days_before_month (year d) (Z.to_nat (month d - 1)) + day d.

Definition days_between (a b : t) : Z := toordinal a - toordinal b.

Definition digit (n : Z) : ascii := ascii_of_nat (48 + Z.to_nat (n mod 10)).

Definition pad2 (n : Z) (rest : string) : string :=
  String (digit (n / 10)) (String (digit n) rest).

Definition pad4 (n : Z) (rest : string) : string :=
  String (digit (n / 1000)) (String (digit (n / 100)) (pad2 n rest)).

(** [date.isoformat()]: [YYYY-MM-DD]. *)
Definition isoformat (d : t) : string :=
  pad4 (year d) (String "-" (pad2 (month d) (String "-" (pad2 (day d) EmptyString)))).

Definition digit_val (c : ascii) : option Z :=
  let n := Z.of_nat (nat_of_ascii c) in
  if (48 <=? n) && (n <=? 57) then Some (n - 48) else None.

(** [date.fromisoformat] on the [YYYY-MM-DD] form; [None] is its
    [ValueError]. *)
Definition fromisoformat (s : string) : option t :=
  match s with
  | String y1 (String y2 (String y3 (String y4 (String "-"
     (String m1 (String m2 (String "-" (String d1 (String d2 EmptyString))))))))) =>
      a ← digit_val y1; b ← digit_val y2; c ← digit_val y3;
      e ← digit_val y4; f ← digit_val m1; g ← digit_val m2;
      h ← digit_val d1; i ← digit_val d2;
      let d := mk (a * 1000 + b * 100 + c * 10 + e) (f * 10 + g)
                  (h * 10 + i) in
      if valid d then Some d else None
  | _ => None
  end.

End Date.

(** ** Daily Finance Challenge: data model ([src/app.py]) *)

Module Quiz.

Definition DEMO_DATE : Date.t := Date.mk 2025 10 5.

Definition POINTS_CORRECT : Z := 10.
Definition POINTS_CORRECT_HINT : Z := 5.
Definition POINTS_PERFECT_BONUS : Z := 20.
Definition PROGRESS_FINISH_PER_Q : Z := 6.

Record QAResult := mkResult {
  qid : string;
  category : string;
  correct : bool;
  r_used_hint : bool;
  user_answer : string;
  explain : string;
  seconds : Z
}.

(** One entry of [category_stats]: the dict [{"correct", "attempted"}]. *)
Record CatStat := mkCat { c_correct : Z; c_attempted : Z }.

Record SaveState := mkSave {
  display_name : string;
  total_points : Z;
  streak : Z;
  last_played : option string;
  streak_freezes : Z;
  history : list json;
  category_stats : gmap string CatStat;
  badges : gmap string bool;
  room_code : option string
}.

(** [SaveState()]. *)
Definition SaveState_default : SaveState :=
  mkSave "You" 0 0 None 3 [] ∅ ∅ None.

(** The fields of a question the scoring code reads, taken from its
    sanitized display copy. *)
Record Question := mkQuestion {
  q_id : string;
  q_category : string;
  q_explain : string
}.

Record PlaySession := mkPlay {
  date : Date.t;
  questions : list Question;
  idx : nat;
  score_today : Z;
  results : list QAResult;
  answered : bool;
  used_hint : bool;
  completed : bool;
  correct_streak : Z;
  answered_count : Z;
  progress_visual : Q;
  start_ts : option Z;
  end_ts : option Z;
  finished_by_progress : bool
}.

(** [PlaySession(date=d, questions=qs)]. *)
Definition new_session (d : Date.t) (qs : list Question) : PlaySession :=
  mkPlay d qs 0 0 [] false false false 0 0 0 None None false.

(** *** Streak tracker *)

(** [None] is the [ValueError] of [fromisoformat] on a stored string that
    is not a date. *)
Definition update_streak_with_freeze (save : SaveState) (playing_date : Date.t)
  : option SaveState :=
  let set streak' freezes' :=
    mkSave (display_name save) (total_points save) streak'
           (Some (Date.isoformat playing_date)) freezes' (history save)
           (category_stats save) (badges save) (room_code save) in
  match last_played save with
  | None | Some EmptyString => Some (set 1 (streak_freezes save))
  | Some lp =>
      last ← Date.fromisoformat lp;
      let delta := Date.days_between playing_date last in
      if delta =? 0 then Some save
      else if delta =? 1 then
        Some (set (streak save + 1) (streak_freezes save))
      else if 1 <? delta then
        if 0 <? streak_freezes save then
          Some (set (streak save + 1) (streak_freezes save - 1))
        else Some (set 1 (streak_freezes save))
      else Some (set (streak save) (streak_freezes save))
  end.

(** *** Session engine

    The Streamlit script is re-run from the top on every interaction;
    the session state is what survives between runs. *)

Record App := mkApp {
  play : PlaySession;
  save : SaveState;
  recorded_today : option string;
  day_questions : list Question
}.

(** What the user did to trigger a run of the script.  [Submit] is a
    click on Submit with a non-empty answer; [got_right] is the verdict of
    the answer checker of the question's type. *)
Inductive Click :=
  | Hint
  | Submit (user_ans : string) (got_right : bool)
  | Next
  | Replay.

Definition question_count (p : PlaySession) : Z :=
  Z.of_nat (length (questions p)).

(** [sum(1 for r in results if r.correct)]. *)
Definition correct_count (rs : list QAResult) : Z :=
  foldr (λ r n, if correct r then 1 + n else n) 0 rs.

Definition boost (streak : Z) : Q :=
  if streak =? 1 then 1
  else if streak =? 2 then 15 # 10
  else if streak =? 3 then 18 # 10
  else 2.

Definition add_cat_stat (stats : gmap string CatStat) (r : QAResult)
  : gmap string CatStat :=
  let d := default (mkCat 0 0) (stats !! category r) in
  <[category r :=
      mkCat (c_correct d + (if correct r then 1 else 0)) (c_attempted d + 1)]>
    stats.

Definition press_hint (p : PlaySession) : PlaySession :=
  if answered p then p
  else mkPlay (date p) (questions p) (idx p) (score_today p) (results p)
              (answered p) true (completed p) (correct_streak p)
              (answered_count p) (progress_visual p) (start_ts p) (end_ts p)
              (finished_by_progress p).

(** The block under "After submit", up to the progress update. *)
Definition score_answer (q : Question) (user_ans : string) (got_right : bool)
    (p : PlaySession) : PlaySession :=
  let gain :=
    if got_right && negb (used_hint p) then POINTS_CORRECT
    else if got_right && used_hint p then POINTS_CORRECT_HINT
    else 0 in
  let r := mkResult (q_id q) (q_category q) got_right
                    (got_right && used_hint p) user_ans (q_explain q) 0 in
  let streak' := if got_right then correct_streak p + 1 else 0 in
  let step := (1 / inject_Z (question_count p))%Q in
  let progress' :=
    if got_right
    then Qmin 1 (progress_visual p + step * boost streak')
    else Qmin 1 (progress_visual p + step) in
  mkPlay (date p) (questions p) (idx p) (score_today p + gain)
         (results p ++ [r]) true (used_hint p) (completed p) streak'
         (answered_count p + 1) progress' (start_ts p) (end_ts p)
         (finished_by_progress p).

(** [finish_day_by_progress_if_needed]; the flag tells whether it called
    [st.rerun()]. *)
Definition finish_day_by_progress_if_needed (now : Z) (p : PlaySession)
  : PlaySession * bool :=
  if negb (completed p) && Qle_bool 1 (progress_visual p) then
    let remaining := Z.max 0 (question_count p - answered_count p) in
    let bonus := remaining * PROGRESS_FINISH_PER_Q in
    let score' := if 0 <? bonus then score_today p + bonus
                  else score_today p in
    (mkPlay (date p) (questions p) (idx p) score' (results p) (answered p)
            (used_hint p) true (correct_streak p) (answered_count p)
            (progress_visual p) (start_ts p) (Some now) true, true)
  else (p, false).

(** The Next button's handler; it always ends in [st.rerun()]. *)
Definition press_next (now : Z) (p : PlaySession) : PlaySession :=
  let idx' := S (idx p) in
  if Z.of_nat idx' >=? question_count p then
    let score' :=
      if correct_count (results p) =? question_count p
      then score_today p + POINTS_PERFECT_BONUS else score_today p in
    mkPlay (date p) (questions p) idx' score' (results p) false false true
           (correct_streak p) (answered_count p) (progress_visual p)
           (start_ts p) (Some now) (finished_by_progress p)
  else
    mkPlay (date p) (questions p) idx' (score_today p) (results p) false
           false (completed p) (correct_streak p) (answered_count p)
           (progress_visual p) (start_ts p) (end_ts p)
           (finished_by_progress p).

Definition total_time (p : PlaySession) : Z :=
  match start_ts p, end_ts p with
  | Some s, Some e => e - s
  | _, _ => 0
  end.

Definition day_record (p : PlaySession) : json :=
  JObj {[ "date" := JStr (Date.isoformat (date p));
          "score" := JInt (score_today p);
          "time" := JInt (total_time p);
          "correct" := JInt (correct_count (results p));
          "total" := JInt (question_count p);
          "finished_by_progress" := JBool (finished_by_progress p);
          "categories" := JArr (JStr <$> (category <$> results p)) ]}.

Definition set_score (p : PlaySession) (score' : Z) : PlaySession :=
  mkPlay (date p) (questions p) (idx p) score' (results p) (answered p)
         (used_hint p) (completed p) (correct_streak p) (answered_count p)
         (progress_visual p) (start_ts p) (end_ts p) (finished_by_progress p).

Definition award (cond : bool) (badge : string) (b : gmap string bool)
  : gmap string bool :=
  if cond then <[badge := true]> b else b.

(** The day-completion block of the completed screen: a no-op once
    [recorded_today] holds the session's date. *)
Definition record_day (a : App) : option App :=
  let p := play a in
  let today := Date.isoformat (date p) in
  if bool_decide (recorded_today a = Some today) then Some a
  else
    sv ← update_streak_with_freeze (save a) (date p);
    let stats := foldl add_cat_stat (category_stats sv) (results p) in
    let perfect :=
      negb (finished_by_progress p)
      && (correct_count (results p) =? question_count p) in
    let p' :=
      if perfect then set_score p (score_today p + POINTS_PERFECT_BONUS)
      else p in
    let b := award perfect "perfect_day" (badges sv) in
    let b := award (5 <=? streak sv) "streak_5" b in
    let b := award (10 <=? streak sv) "streak_10" b in
    let b := award (100 <=? score_today p') "centurion" b in
    let sv' :=
      mkSave (display_name sv) (total_points sv + score_today p')
             (streak sv) (last_played sv) (streak_freezes sv)
             (history sv ++ [day_record p']) stats b (room_code sv) in
    Some (mkApp p' sv' (Some today) (day_questions a)).

Definition set_play (a : App) (p : PlaySession) : App :=
  mkApp p (save a) (recorded_today a) (day_questions a).

Definition stamp_start (now : Z) (p : PlaySession) : PlaySession :=
  match start_ts p with
  | Some _ => p
  | None =>
      mkPlay (date p) (questions p) (idx p) (score_today p) (results p)
             (answered p) (used_hint p) (completed p) (correct_streak p)
             (answered_count p) (progress_visual p) (Some now) (end_ts p)
             (finished_by_progress p)
  end.

(** A run of the script with no button pressed.  [None] is an uncaught
    exception ([IndexError] on the question list, [ValueError] on the
    stored date). *)
Definition render (now : Z) (a : App) : option App :=
  if completed (play a) then record_day a
  else
    _ ← questions (play a) !! idx (play a);
    Some (set_play a (stamp_start now (play a))).

(** A run of the script triggered by [c], followed by the run [st.rerun()]
    starts when the handler asks for one. *)
Definition script (now : Z) (c : Click) (a : App) : option App :=
  if completed (play a) then
    a' ← record_day a;
    match c with
    | Replay =>
        render now (set_play a' (new_session DEMO_DATE (day_questions a')))
    | _ => Some a'
    end
  else
    q ← questions (play a) !! idx (play a);
    let p := stamp_start now (play a) in
    match c with
    | Hint => Some (set_play a (press_hint p))
    | Submit user_ans got_right =>
        if answered p then Some (set_play a p)
        else
          let '(p', rerun) :=
            finish_day_by_progress_if_needed now
              (score_answer q user_ans got_right p) in
          if rerun then render now (set_play a p')
          else Some (set_play a p')
    | Next =>
        if answered p && negb (completed p)
        then render now (set_play a (press_next now p))
        else Some (set_play a p)
    | Replay => Some (set_play a p)
    end.

(** A sequence of interactions. *)
Fixpoint run (now : Z) (cs : list Click) (a : App) : option App :=
  match cs with
  | [] => Some a
  | c :: cs' => a' ← script now c a; run now cs' a'
  end.

(** [st.session_state] at the start of a day: a fresh session over the
    day's questions ([get_session] stops on an empty list). *)
Definition start_app (sv : SaveState) (qs : list Question) : App :=
  mkApp (new_session DEMO_DATE qs) sv None qs.

(** The score of the last day-summary appended to the save's history. *)
Definition recorded_score (a : App) : option Z :=
  match last (history (save a)) with
  | Some (JObj o) =>
      match o !! "score" with Some (JInt z) => Some z | _ => None end
  | _ => None
  end.

(** The clicks of a player who answers each question correctly with no
    hint and moves on. *)
Definition all_correct_clicks (n : nat) : list Click :=
  mjoin (replicate n [Submit "ok" true; Next]).

(** *** Save codec *)

Definition catstat_to_json (c : CatStat) : json :=
  JObj {[ "correct" := JInt (c_correct c);
          "attempted" := JInt (c_attempted c) ]}.

(** The counters are typed here: an entry that is not exactly a pair of
    integer counters is rejected, where Python would store it as it is. *)
Definition catstat_of_json (v : json) : option CatStat :=
  o ← Json.as_dict v;
  c ← o !! "correct" ≫= Json.as_int;
  a ← o !! "attempted" ≫= Json.as_int;
  if bool_decide (size o = 2%nat) then Some (mkCat c a) else None.

Definition save_fields : list string :=
  ["display_name"; "total_points"; "streak"; "last_played";
   "streak_freezes"; "history"; "category_stats"; "badges"; "room_code"].

(** [asdict(self)], the payload [to_json] hands to [json.dumps]. *)
Definition to_json (s : SaveState) : json :=
  JObj {[ "display_name" := JStr (display_name s);
          "total_points" := JInt (total_points s);
          "streak" := JInt (streak s);
          "last_played" := Json.of_opt_str (last_played s);
          "streak_freezes" := JInt (streak_freezes s);
          "history" := JArr (history s);
          "category_stats" := JObj (catstat_to_json <$> category_stats s);
          "badges" := JObj (JBool <$> badges s);
          "room_code" := Json.of_opt_str (room_code s) ]}.

(** [SaveState] built from the keywords of the parsed document: an
    unknown key is a [TypeError], a missing one takes the dataclass
    default.  The fields are typed here, so a value of another type is
    rejected, where Python would store it as it is. *)
Definition from_json (v : json) : option SaveState :=
  d ← Json.as_dict v;
  if Json.keys_within save_fields d then
    n ← Json.as_str (Json.get "display_name" (JStr "You") d);
    t ← Json.as_int (Json.get "total_points" (JInt 0) d);
    k ← Json.as_int (Json.get "streak" (JInt 0) d);
    l ← Json.as_opt_str (Json.get "last_played" JNull d);
    f ← Json.as_int (Json.get "streak_freezes" (JInt 3) d);
    h ← Json.as_list (Json.get "history" (JArr []) d);
    c ← Json.as_dict (Json.get "category_stats" (JObj ∅) d)
          ≫= Json.decode_map catstat_of_json;
    b ← Json.as_dict (Json.get "badges" (JObj ∅) d)
          ≫= Json.decode_map Json.as_bool;
    r ← Json.as_opt_str (Json.get "room_code" JNull d);
    Some (mkSave n t k l f h c b r)
  else None.

(** *** Notions used to state the properties *)

(** The stored date is absent, empty or a date: [update_streak_with_freeze]
    returns. *)
Definition last_played_ok (s : SaveState) : Prop :=
  match last_played s with
  | None => True
  | Some lp => lp = EmptyString \/ is_Some (Date.fromisoformat lp)
  end.








(** The counters of the category [cat], zero when it has no entry. *)
Definition cat_stat (stats : gmap string CatStat) (cat : string) : CatStat :=
  default (mkCat 0 0) (stats !! cat).

(** The results of the category [cat]. *)
Definition in_category (cat : string) (rs : list QAResult) : list QAResult :=
  List.filter (fun r => String.eqb (category r) cat) rs.

(** *** Sample data *)

Definition demo_question : Question := mkQuestion "q1" "budget" "50/30/20".

Definition demo_questions (n : nat) : list Question :=
  replicate n demo_question.

(** A day of four questions after two correct answers. *)
Definition two_correct_of_four : App :=
  default (start_app SaveState_default (demo_questions 4))
    (run 0 (all_correct_clicks 2)
       (start_app SaveState_default (demo_questions 4))).



(** A save after one recorded day. *)
Definition played_save : SaveState :=
  mkSave "You" 46 1 (Some "2025-10-05") 3
         [JObj {[ "date" := JStr "2025-10-05"; "score" := JInt 46 ]}]
         {[ "budget" := mkCat 4 4 ]} {[ "centurion" := false ]}
         (Some "ECON1A").


(** A save last played two days before [DEMO_DATE]. *)
Definition lapsed_save : SaveState :=
  mkSave "You" 120 4 (Some "2025-10-03") 3 [] ∅ ∅ None.

End Quiz.

(** ** Text sanitizer ([clean_text] of [src/app.py]) *)

Module Text.

#[local] Open Scope N_scope.

(** A Python [str]: its Unicode code points. *)
Definition text := list N.

Definition SPACE : N := 32.
Definition COMMA : N := 44.
Definition PERIOD : N := 46.

(** The class [\s] of [re] on [str] patterns, which is also what
    [str.strip()] removes. *)
Definition is_space (c : N) : bool :=
  ((9 <=? c) && (c <=? 13)) || ((28 <=? c) && (c <=? 32))
  || (c =? 133) || (c =? 160) || (c =? 5760)
  || ((8192 <=? c) && (c <=? 8202))
  || (c =? 8232) || (c =? 8233) || (c =? 8239) || (c =? 8287)
  || (c =? 12288).

(** [_ZW_CHARS]: U+200B to U+200D, and U+FEFF. *)
Definition is_zw (c : N) : bool :=
  ((8203 <=? c) && (c <=? 8205)) || (c =? 65279).

(** [_CTRL_CHARS]: U+0000 to U+001F, and U+007F. *)
Definition is_ctrl (c : N) : bool := (c <=? 31) || (c =? 127).

Fixpoint drop_ws (s : text) : text :=
  match s with
  | c :: t => if is_space c then drop_ws t else s
  | [] => []
  end.

(** The first character after the white space at the head of [t] is
    [ch]. *)
Definition next_nonspace_is (ch : N) (t : text) : bool :=
  match drop_ws t with
  | x :: _ => x =? ch
  | [] => false
  end.

(** [re.sub] of [_ZW_CHARS] by the empty string. *)
Definition remove_zw (s : text) : text :=
  List.filter (fun c => negb (is_zw c)) s.

(** [re.sub(_CTRL_CHARS, " ", s)]. *)
Definition ctrl_to_space (s : text) : text :=
  List.map (fun c => if is_ctrl c then SPACE else c) s.

(** [re.sub(r"\s+", " ", s)]; [in_run] says the previous character was
    white space. *)
Fixpoint collapse_from (in_run : bool) (s : text) : text :=
  match s with
  | [] => []
  | c :: t =>
      if is_space c
      then (if in_run then collapse_from true t
            else SPACE :: collapse_from true t)
      else c :: collapse_from false t
  end.

Definition collapse_ws (s : text) : text := collapse_from false s.

(** [re.sub(r"\s*,\s*", ", ", s)]: a run of white space is part of a
    match when a comma follows it ([next_nonspace_is]) or precedes it
    ([after_comma]). *)
Fixpoint comma_from (after_comma : bool) (s : text) : text :=
  match s with
  | [] => []
  | c :: t =>
      if is_space c then
        if after_comma || next_nonspace_is COMMA t
        then comma_from after_comma t
        else c :: comma_from false t
      else if c =? COMMA then COMMA :: SPACE :: comma_from true t
      else c :: comma_from false t
  end.

Definition space_commas (s : text) : text := comma_from false s.

(** [re.sub(r"\s+\.", ".", s)]. *)
Fixpoint close_periods (s : text) : text :=
  match s with
  | [] => []
  | c :: t =>
      if is_space c && next_nonspace_is PERIOD t
      then close_periods t
      else c :: close_periods t
  end.

(** [s.replace(" ,", ",")]. *)
Fixpoint close_commas (s : text) : text :=
  match s with
  | [] => []
  | c :: t =>
      match t with
      | d :: t' =>
          if (c =? SPACE) && (d =? COMMA) then COMMA :: close_commas t'
          else c :: close_commas t
      | [] => [c]
      end
  end.

(** [s.strip()]. *)
Definition strip (s : text) : text := rev (drop_ws (rev (drop_ws s))).

(** The passes of [clean_text] after the Unicode normalization. *)
Definition tidy (s : text) : text :=
  strip (close_commas (close_periods (space_commas (collapse_ws
    (ctrl_to_space (remove_zw s)))))).

Section CleanText.

(** [unicodedata.normalize("NFKC", _)], whose tables are library
    data. *)
Variable nfkc : text → text.

Definition normalize_unicode (s : text) : text := nfkc s.

Definition clean_text (s : text) : text := tidy (normalize_unicode s).

End CleanText.

(** *** Answer checkers *)

Section Checkers.

(** [str.lower] and [float] on a string are library code.  [float] is
    [None] where Python raises [ValueError], and also on the spellings of
    infinity and NaN, which lie within no finite tolerance. *)
Variable lower : text -> text.
Variable float_of_text : text -> option Q.

Definition norm (s : text) : text := lower (strip s).

(** [u_text.replace(",", "")]. *)
Definition remove_commas (s : text) : text :=
  List.filter (fun c => negb (c =? COMMA)) s.

(** The answer [a] and the tolerance [t] are the numbers of the question
    bank. *)
Definition check_numeric_text (u_text : option text) (a t : Q) : bool :=
  match u_text with
  | None => false
  | Some u =>
      match strip u with
      | [] => false
      | u' =>
          match float_of_text (remove_commas u') with
          | Some val => Qle_bool (Qabs (val - a)) t
          | None => false
          end
      end
  end.

(** [(u or "") == a]. *)
Definition check_mc (u : option text) (a : text) : bool :=
  bool_decide (default [] u = a).

Definition check_tf (u : option text) (a : text) : bool :=
  bool_decide (default [] u = a).

Definition check_fib (u a : text) : bool := bool_decide (norm u = norm a).

End Checkers.

(** *** Question sanitizer *)

(** A value of the question bank: a parsed JSON value whose strings are
    kept as code points, the form the sanitizer works on. *)
Inductive qvalue :=
  | QNull
  | QBool (b : bool)
  | QNum (x : Q)
  | QStr (s : text)
  | QArr (l : list qvalue)
  | QObj (o : gmap string qvalue).

Section Sanitize.

Variable nfkc : text -> text.

(** [clean_text] on any value: what is not a [str] is returned as it
    is. *)
Definition clean_value (v : qvalue) : qvalue :=
  match v with
  | QStr s => QStr (clean_text nfkc s)
  | _ => v
  end.

(** The new value of [choices]: cleaned item by item when it is a list. *)
Definition clean_choices (v : qvalue) : qvalue :=
  match v with
  | QArr l => QArr (clean_value <$> l)
  | _ => v
  end.

(** [sanitize_question] on a copy of the question: each step rewrites
    one key, when the question has it. *)
Definition sanitize_question (q : gmap string qvalue) : gmap string qvalue :=
  let q := alter clean_value "prompt" q in
  let q := alter clean_choices "choices" q in
  let q := alter clean_value "explain" q in
  let q := alter clean_value "answer_text" q in
  alter clean_value "answer" q.

End Sanitize.

(** Modelled from the Unicode standard: NFKC on texts over the code
    points U+0065 (e), U+0301 (combining acute accent), U+00E9 and the
    characters without decomposition or composition (ASCII punctuation
    and digits, a, b, U+200B): the only rule that applies composes
    U+0065 U+0301 into U+00E9. *)
Fixpoint nfkc_acute_e (s : text) : text :=
  match s with
  | [] => []
  | c :: t =>
      match t with
      | d :: t' =>
          if (c =? 101) && (d =? 769) then 233 :: nfkc_acute_e t'
          else c :: nfkc_acute_e t
      | [] => [c]
      end
  end.

(** *** Notions used to state the properties *)

(** Character classes the passes distinguish. *)
Inductive kind := KSpace | KComma | KPeriod | KOther.

Definition kind_of (c : N) : kind :=
  if is_space c then KSpace
  else if c =? COMMA then KComma
  else if c =? PERIOD then KPeriod
  else KOther.

(** A character the first three passes leave alone. *)
Definition plain (c : N) : bool :=
  negb (is_zw c) && negb (is_ctrl c) && (negb (is_space c) || (c =? SPACE)).

Definition plain_opt (o : option N) : bool :=
  match o with Some c => plain c | None => true end.

(** [chain ok prev s]: every pair of neighbours of [prev :: s], the end of
    the text included, is accepted by [ok]. *)
Fixpoint chain (ok : option N -> option N -> bool) (prev : option N)
    (s : text) : bool :=
  match s with
  | [] => ok prev None
  | c :: t => ok prev (Some c) && chain ok (Some c) t
  end.

Definition kind_eqb (a b : kind) : bool :=
  match a, b with
  | KSpace, KSpace | KComma, KComma | KPeriod, KPeriod | KOther, KOther =>
      true
  | _, _ => false
  end.

Definition is_kind (k : kind) (o : option N) : bool :=
  match o with
  | Some c => kind_eqb k (kind_of c)
  | None => false
  end.

(** After the white-space collapse: plain characters, no two spaces in a
    row. *)
Definition ok_single (prev cur : option N) : bool :=
  plain_opt cur && negb (is_kind KSpace prev && is_kind KSpace cur).

(** After [space_commas]: moreover a space follows every comma. *)
Definition ok_spaced (prev cur : option N) : bool :=
  ok_single prev cur && (negb (is_kind KComma prev) || is_kind KSpace cur).

(** After [close_periods]: a comma is followed by a space or a period, and
    no space precedes a period. *)
Definition ok_periods (prev cur : option N) : bool :=
  ok_single prev cur
  && (negb (is_kind KComma prev) || is_kind KSpace cur || is_kind KPeriod cur)
  && negb (is_kind KSpace prev && is_kind KPeriod cur).

(** After [close_commas]: a comma is followed by a space, a period or a
    comma, and no space precedes a period or a comma. *)
Definition ok_commas (prev cur : option N) : bool :=
  ok_single prev cur
  && (negb (is_kind KComma prev) || is_kind KSpace cur || is_kind KPeriod cur
      || is_kind KComma cur)
  && negb (is_kind KSpace prev && (is_kind KPeriod cur || is_kind KComma cur)).

(** After [strip]: the same in the middle, no space at either end, and a
    comma may end the text. *)
Definition ok_tidy (prev cur : option N) : bool :=
  match prev, cur with
  | None, None => true
  | None, Some _ => plain_opt cur && negb (is_kind KSpace cur)
  | Some _, None => negb (is_kind KSpace prev)
  | Some _, Some _ => ok_commas prev cur
  end.

(** A character that is neither zero-width nor a control character. *)
Definition visible (c : N) : bool := negb (is_zw c) && negb (is_ctrl c).

(** [pad want s]: a space after every comma of [s] whose follower,
    [None] at the end of the text, satisfies [want]. *)
Fixpoint pad (want : option N -> bool) (s : text) : text :=
  match s with
  | [] => []
  | c :: t =>
      if (c =? COMMA) && want (head t) then c :: SPACE :: pad want t
      else c :: pad want t
  end.

Definition not_space (o : option N) : bool := negb (is_kind KSpace o).

Definition comma_or_end (o : option N) : bool :=
  negb (is_kind KSpace o) && negb (is_kind KPeriod o).

Definition at_end (o : option N) : bool :=
  match o with None => true | Some _ => false end.

End Text.

(** * Properties

    The lemmas below are grouped by component.  A comment that starts
    with C1 .. C10 marks the statement of that numbered property of the
    specification. *)

Section Numerics.
Open Scope Q_scope.

Lemma round_cases (x : Q) :
  Py.round x = Qfloor x \/ Py.round x = (Qfloor x + 1)%Z.
Proof.
  unfold Py.round. cbv zeta.
  destruct (x - inject_Z (Qfloor x) ?= 1 # 2); auto.
  destruct (Z.even (Qfloor x)); auto.
Qed.

Lemma round_close (x : Q) :
  x - (1 # 2) <= inject_Z (Py.round x) <= x + (1 # 2).
Proof.
  pose proof (Qfloor_le x) as Hlo.
  pose proof (Qlt_floor x) as Hhi.
  rewrite inject_Z_plus in Hhi. change (inject_Z 1) with 1 in Hhi.
  unfold Py.round. cbv zeta.
  destruct (x - inject_Z (Qfloor x) ?= 1 # 2) eqn:E.
  - apply Qeq_alt in E.
    destruct (Z.even (Qfloor x)); rewrite ?inject_Z_plus;
      change (inject_Z 1) with 1; lra.
  - apply Qlt_alt in E. lra.
  - apply Qgt_alt in E. rewrite inject_Z_plus.
    change (inject_Z 1) with 1. lra.
Qed.

Lemma round_nonneg (x : Q) : 0 <= x -> (0 <= Py.round x)%Z.
Proof.
  intros Hx.
  assert (0 <= Qfloor x)%Z as Hf.
  { change 0%Z with (Qfloor 0). now apply Qfloor_resp_le. }
  destruct (round_cases x) as [-> | ->]; lia.
Qed.

Lemma round_comp (x y : Q) : x == y -> Py.round x = Py.round y.
Proof.
  intros E. unfold Py.round. cbv zeta.
  rewrite (Qfloor_comp _ _ E).
  assert (x - inject_Z (Qfloor y) == y - inject_Z (Qfloor y)) as E' by lra.
  now rewrite (Qcompare_comp _ _ E' _ _ (Qeq_refl _)).
Qed.

Lemma round2_close (x : Q) :
  x - (1 # 200) <= Py.round2 x <= x + (1 # 200).
Proof.
  unfold Py.round2. pose proof (round_close (x * 100)) as H.
  set (r := inject_Z (Py.round (x * 100))) in *. clearbody r.
  unfold Qdiv. change (/ 100) with (1 # 100). lra.
Qed.

Lemma round2_nonneg (x : Q) : 0 <= x -> 0 <= Py.round2 x.
Proof.
  intros Hx. unfold Py.round2.
  assert (0 <= Py.round (x * 100))%Z as H by (apply round_nonneg; lra).
  rewrite Zle_Qle in H.
  set (r := inject_Z (Py.round (x * 100))) in *. clearbody r.
  unfold Qdiv. change (/ 100) with (1 # 100). change (inject_Z 0) with 0 in H. lra.
Qed.

Lemma round2_comp (x y : Q) : x == y -> Py.round2 x = Py.round2 y.
Proof.
  intros E. unfold Py.round2.
  assert (x * 100 == y * 100) as E' by lra.
  now rewrite (round_comp _ _ E').
Qed.
End Numerics.

Ltac name_minmax :=
  repeat match goal with
  | |- context [Qmax ?a ?b] =>
      let H := fresh "Hmax" in let m := fresh "m" in
      pose proof (Q.max_spec a b) as H; set (m := Qmax a b) in *; clearbody m
  | |- context [Qmin ?a ?b] =>
      let H := fresh "Hmin" in let m := fresh "m" in
      pose proof (Q.min_spec a b) as H; set (m := Qmin a b) in *; clearbody m
  | _ : context [Qmax ?a ?b] |- _ =>
      let H := fresh "Hmax" in let m := fresh "m" in
      pose proof (Q.max_spec a b) as H; set (m := Qmax a b) in *; clearbody m
  | _ : context [Qmin ?a ?b] |- _ =>
      let H := fresh "Hmin" in let m := fresh "m" in
      pose proof (Q.min_spec a b) as H; set (m := Qmin a b) in *; clearbody m
  end.

Ltac split_minmax :=
  repeat match goal with
  | H : (_ /\ _) \/ (_ /\ _) |- _ => destruct H as [[? ?] | [? ?]]
  end.

Section FinanceMath.
Import MoneyQuest.
Open Scope Q_scope.

Variables net needs_p wants_p savings_p fixed : Q.
Hypothesis net_nonneg : 0 <= net.
Hypothesis wants_nonneg : 0 <= wants_p.
Hypothesis savings_nonneg : 0 <= savings_p.

Let remaining := Qmax 0 (net - fixed).
Let b := budget_amounts net needs_p wants_p savings_p fixed.


Lemma budget_amounts_nonneg :
  0 <= fixed ->
  0 <= needs_spend b /\ 0 <= wants_spend b /\ 0 <= savings_add b
  /\ 0 <= leftover b.
Proof.
  intros Hf. subst b. unfold budget_amounts.
  cbn [needs_spend wants_spend savings_add leftover].
  name_minmax. split_minmax; repeat split; lra.
Qed.

Lemma budget_amounts_total :
  needs_spend b + wants_spend b + savings_add b + leftover b
  == remaining + fixed + Qmax 0 (net * needs_p - fixed).
Proof.
  pose proof (Qmult_le_0_compat _ _ net_nonneg wants_nonneg) as Hw.
  pose proof (Qmult_le_0_compat _ _ net_nonneg savings_nonneg) as Hs.
  subst b remaining. unfold budget_amounts.
  cbn [needs_spend wants_spend savings_add leftover].
  set (pw := net * wants_p) in *. set (ps := net * savings_p) in *.
  set (pn := net * needs_p) in *.
  clearbody pw ps pn.
  name_minmax. split_minmax; lra.
Qed.

End FinanceMath.

Section Budget.
Import MoneyQuest.
Open Scope Q_scope.

(** C2 (counterexample).  Net income 1056, split 50/30/20, fixed needs 80:
    the four outputs add up to 1504, 448 more than the net income. *)
Lemma apply_budget_total_counterexample :
  let a := apply_budget 1056 (5 # 10) (3 # 10) (2 # 10) 80 in
  (80 <= 1056
   /\ needs_spend a + wants_spend a + savings_add a + leftover a == 1504
   /\ (2 # 100) < Qabs (1504 - 1056))%Q.
Proof. vm_compute. repeat split; congruence. Qed.

(** C2 (amended).  For non-negative inputs with fixed needs within the net
    income, the four outputs of [apply_budget] are non-negative and add up,
    within the 0.02 their rounding allows, to the net income plus the part
    of the planned needs above the fixed needs; so to the net income when
    the planned needs do not exceed the fixed needs. *)
Theorem apply_budget_total (net needs_p wants_p savings_p fixed : Q) :
  0 <= net -> 0 <= needs_p -> 0 <= wants_p -> 0 <= savings_p ->
  0 <= fixed -> fixed <= net ->
  let a := apply_budget net needs_p wants_p savings_p fixed in
  0 <= needs_spend a /\ 0 <= wants_spend a /\ 0 <= savings_add a
  /\ 0 <= leftover a
  /\ Qabs (needs_spend a + wants_spend a + savings_add a + leftover a
           - (net + Qmax 0 (net * needs_p - fixed))) <= 2 # 100.
Proof.
  intros Hn Hnp Hwp Hsp Hf Hle a.
  destruct (budget_amounts_nonneg net needs_p wants_p savings_p fixed Hf)
    as (B1 & B2 & B3 & B4).
  pose proof (budget_amounts_total net needs_p wants_p savings_p fixed
                Hn Hwp Hsp) as T.
  subst a. unfold apply_budget.
  cbn [needs_spend wants_spend savings_add leftover].
  set (b := budget_amounts net needs_p wants_p savings_p fixed) in *.
  pose proof (round2_close (needs_spend b)).
  pose proof (round2_close (wants_spend b)).
  pose proof (round2_close (savings_add b)).
  pose proof (round2_close (leftover b)).
  repeat split; try (now apply round2_nonneg).
  apply Qabs_Qle_condition.
  assert (Qmax 0 (net - fixed) == net - fixed) as R
    by (apply Q.max_r; lra).
  rewrite R in T.
  set (e := Qmax 0 (net * needs_p - fixed)) in *. clearbody e.
  split; lra.
Qed.

(** C2 (witness): net income 1000, split 50/30/20, fixed needs 800. *)
Lemma apply_budget_total_witness :
  let a := apply_budget 1000 (5 # 10) (3 # 10) (2 # 10) 800 in
  0 <= needs_spend a /\ 0 <= wants_spend a /\ 0 <= savings_add a
  /\ 0 <= leftover a
  /\ Qabs (needs_spend a + wants_spend a + savings_add a + leftover a
           - (1000 + Qmax 0 (1000 * (5 # 10) - 800))) <= 2 # 100.
Proof.
  apply (apply_budget_total 1000 (5 # 10) (3 # 10) (2 # 10) 800);
    vm_compute; congruence.
Defined.




End Budget.

Section CreditCard.
Import MoneyQuest.

Lemma ceil_interest (d : Z) :
  Py.ceil (inject_Z d * (102 # 100)) = (102 * d + 99) / 100.
Proof.
  unfold Py.ceil, Qceiling, Qfloor, Qopp, Qmult, inject_Z. cbn [Qnum Qden].
  change (Z.pos (1 * 100)) with 100.
  Z.div_mod_to_equations. lia.
Qed.

Lemma interest_grows (d : Z) :
  0 <= d -> d <= Py.ceil (inject_Z d * (102 # 100)).
Proof.
  intros Hd. rewrite ceil_interest. Z.div_mod_to_equations. lia.
Qed.

(** C3 (counterexample).  A balance of 24 with the minimum-payment choice:
    the balance after interest is 25, so min(25, balance after interest) is
    25, but the minimum payment and the payment are 24 and a debt of 1
    stays. *)
Lemma minimum_payment_counterexample :
  let st := with_debt 24 "min_pay" in
  debt_after_interest (card_step st) = 25
  /\ Z.min 25 (debt_after_interest (card_step st)) = 25
  /\ min_payment (card_step st) = 24
  /\ payment (card_step st) = 24
  /\ debt (state' (close_month st 80 default_credit_limit)) = 1.
Proof. vm_compute. repeat split. Qed.

(** C3 (amended).  In [close_month] the balance after interest is the debt
    times 1.02 rounded up; the minimum payment is min(25, debt), taken on
    the debt before interest; the payment is the balance after interest
    under the pay-in-full choice and the minimum otherwise; and the new
    debt, in the state and in the snapshot, is max(0, balance after
    interest - payment). *)
Theorem close_month_debt_model
    (st : PlayerState) (fixed : Q) (credit_limit : Z) :
  let r := close_month st fixed credit_limit in
  let after := (102 * debt st + 99) / 100 in
  let minimum := Z.min 25 (debt st) in
  let paid := if pay_full_choice st then after else minimum in
  debt_after_interest (card_step st) = after
  /\ min_payment (card_step st) = minimum
  /\ payment (card_step st) = paid
  /\ debt (state' r) = Z.max 0 (after - paid)
  /\ s_debt (snapshot r) = Z.max 0 (after - paid).
Proof.
  unfold close_month, compute_net_pay.
  cbn [state' snapshot debt s_debt].
  unfold card_step. cbn [debt_after_interest min_payment payment new_debt].
  rewrite ceil_interest. repeat split.
Qed.

(** C10.  For a debt that is not negative, the payment of [close_month] is
    at least the minimum payment, so [update_credit_score] is called with
    [on_time_payment] true and its -25 branch is not taken. *)
Theorem close_month_always_on_time
    (st : PlayerState) (fixed : Q) (credit_limit : Z) :
  0 <= debt st ->
  let r := close_month st fixed credit_limit in
  let utilization :=
    if credit_limit =? 0 then 0%Q
    else (inject_Z (debt (state' r)) / inject_Z credit_limit)%Q in
  min_payment (card_step st) <= payment (card_step st)
  /\ on_time (card_step st) = true
  /\ creditScore (state' r)
     = update_credit_score (creditScore st) utilization true.
Proof.
  intros Hd.
  assert (min_payment (card_step st) <= payment (card_step st)) as Hpay.
  { unfold card_step. cbn [min_payment payment].
    pose proof (interest_grows _ Hd).
    destruct (pay_full_choice st); lia. }
  assert (on_time (card_step st) = true) as Hon.
  { unfold card_step in *. cbn [on_time min_payment payment] in *.
    now apply Z.leb_le. }
  cbv zeta. repeat split; try assumption.
  unfold close_month, compute_net_pay. cbn [state' creditScore debt].
  now rewrite Hon.
Qed.

(** C10 (witness): a balance of 100 paid in full. *)
Lemma close_month_always_on_time_witness :
  let st := with_debt 100 "pay_full" in
  let r := close_month st 80 default_credit_limit in
  let utilization :=
    if default_credit_limit =? 0 then 0%Q
    else (inject_Z (debt (state' r)) / inject_Z default_credit_limit)%Q in
  min_payment (card_step st) <= payment (card_step st)
  /\ on_time (card_step st) = true
  /\ creditScore (state' r)
     = update_credit_score (creditScore st) utilization true.
Proof.
  apply (close_month_always_on_time (with_debt 100 "pay_full") 80
           default_credit_limit).
  vm_compute. congruence.
Defined.

End CreditCard.

Section Codec.

Lemma decode_map_fmap {A} (f : json -> option A) (g : A -> json)
    (m : gmap string A) :
  (forall x, f (g x) = Some x) -> Json.decode_map f (g <$> m) = Some m.
Proof.
  intros Hfg. unfold Json.decode_map.
  rewrite bool_decide_eq_true_2.
  - f_equal. apply map_eq. intros i.
    rewrite lookup_omap, lookup_fmap.
    destruct (m !! i); cbn; [apply Hfg | reflexivity].
  - apply map_Forall_fmap. intros i x _. cbn. rewrite Hfg. eauto.
Qed.

Lemma keys_within_literal (names : list string) (o : gmap string json) :
  dom o ⊆ list_to_set names -> Json.keys_within names o = true.
Proof.
  intros H. unfold Json.keys_within. apply bool_decide_eq_true_2.
  intros k v Hk. apply elem_of_dom_2 in Hk. set_solver.
Qed.

Import Quiz.

Lemma catstat_roundtrip (c : CatStat) :
  catstat_of_json (catstat_to_json c) = Some c.
Proof. destruct c. reflexivity. Qed.

Lemma save_roundtrip (s : SaveState) : from_json (to_json s) = Some s.
Proof.
  destruct s as [n t k l f h c b r].
  unfold from_json, to_json. cbn [Json.as_dict mbind option_bind].
  cbn [display_name total_points streak last_played streak_freezes history
       category_stats badges room_code].
  rewrite keys_within_literal.
  2:{ rewrite !dom_insert_L, dom_singleton_L. cbn. set_solver. }
  unfold Json.get. simplify_map_eq. cbn.
  rewrite (decode_map_fmap _ _ c catstat_roundtrip). cbn.
  rewrite (decode_map_fmap Json.as_bool JBool b) by done. cbn.
  destruct l, r; reflexivity.
Qed.

Import MoneyQuest.

Lemma snapshot_roundtrip (h : MonthlySnapshot) :
  snapshot_of_json (snapshot_to_json h) = Some h.
Proof. destruct h. reflexivity. Qed.

Variable int_of_str : string -> option Z.
Variable float_of_str : string -> option Q.

Lemma player_roundtrip (st : PlayerState) :
  is_Some (choices st) -> is_Some (history st) ->
  import_save int_of_str float_of_str (export_save st) = Some st.
Proof.
  destruct st as [m c s d k [h w r] bn bw bs ch hi].
  cbn [choices history]. intros [cm ->] [hl ->].
  unfold import_save, export_save, income_to_json.
  cbn [Json.as_dict mbind option_bind month cash savings debt creditScore
       income budget_needs budget_wants budget_savings choices history
       hoursPerWeek wagePerHour withholdingRate choices_to_json default].
  unfold Json.get. simplify_map_eq. cbn.
  rewrite (decode_map_fmap Json.as_str JStr cm) by done. cbn.
  rewrite (mapM_fmap_Some snapshot_of_json snapshot_to_json)
    by exact snapshot_roundtrip.
  reflexivity.
Qed.

(** C6.  Decoding an encoded save gives back the state: for every player
    state that holds a choices map and a history list (empty ones
    included), and for every quiz save. *)
Theorem save_codecs_roundtrip (st : PlayerState) (sv : SaveState) :
  is_Some (choices st) -> is_Some (history st) ->
  import_save int_of_str float_of_str (export_save st) = Some st
  /\ from_json (to_json sv) = Some sv.
Proof.
  intros Hc Hh. split; [now apply player_roundtrip | apply save_roundtrip].
Qed.

Lemma get_filter (keep : string -> bool) (k : string) (dflt : json)
    (m : gmap string json) :
  Json.get k dflt (filter (fun kv => keep kv.1 = true) m)
  = if keep k then Json.get k dflt m else dflt.
Proof.
  unfold Json.get. rewrite map_lookup_filter.
  destruct (m !! k) as [v|]; cbn; [|now destruct (keep k)].
  destruct (keep k) eqn:E; [rewrite option_guard_True | rewrite option_guard_False];
    cbn; congruence.
Qed.

Lemma int_if (b : bool) (x y : Z) :
  Json.py_int int_of_str (if b then JInt x else JInt y)
  = Some (if b then x else y).
Proof. now destruct b. Qed.

Lemma float_if (b : bool) (x y : Q) :
  Json.py_float float_of_str (if b then JFloat x else JFloat y)
  = Some (if b then x else y).
Proof. now destruct b. Qed.

(** A save from which top-level fields of the state were dropped loads:
    each kept field as it was saved, each dropped field with the fallback
    of [import_save], independently of the others. *)
Lemma import_partial_save (keep : string -> bool) (st : PlayerState) :
  is_Some (choices st) -> is_Some (history st) ->
  import_save int_of_str float_of_str (partial_save keep st)
  = Some (mkPlayer
            (if keep "month" then month st else 1)
            (if keep "cash" then cash st else 0)
            (if keep "savings" then savings st else 0)
            (if keep "debt" then debt st else 0)
            (if keep "creditScore" then creditScore st else 680)
            (if keep "income" then income st else Income_default)
            (if keep "budget_needs" then budget_needs st else 5 # 10)
            (if keep "budget_wants" then budget_wants st else 3 # 10)
            (if keep "budget_savings" then budget_savings st else 2 # 10)
            (if keep "choices" then choices st else Some ∅)
            (if keep "history" then history st else Some [])).
Proof.
  destruct st as [m c s d k [h w r] bn bw bs ch hi].
  cbn [choices history]. intros [cm ->] [hl ->].
  unfold import_save, partial_save.
  cbn [Json.as_dict mbind option_bind].
  assert (forall k v dflt, Json.get k dflt {[ k := v ]} = v) as Hget
    by (intros; unfold Json.get; now rewrite lookup_singleton_eq).
  rewrite Hget. cbn [Json.as_dict mbind option_bind].
  rewrite !get_filter.
  unfold state_payload, income_to_json.
  cbn [month cash savings debt creditScore
       income budget_needs budget_wants budget_savings choices history
       hoursPerWeek wagePerHour withholdingRate choices_to_json default].
  unfold Json.get. simplify_map_eq.
  rewrite !int_if.
  destruct (keep "income"); cbn [Json.as_dict mbind option_bind];
    simplify_map_eq; cbn [default Json.py_float mbind option_bind];
    rewrite !float_if; cbn [mbind option_bind];
    (destruct (keep "choices"); cbn [choices_of_json mbind option_bind];
     [rewrite (decode_map_fmap Json.as_str JStr cm) by done|];
     cbn [mbind option_bind];
     (destruct (keep "history"); cbn [history_of_json mbind option_bind];
      [rewrite (mapM_fmap_Some snapshot_of_json snapshot_to_json)
         by exact snapshot_roundtrip|]; reflexivity)).
Qed.

End Codec.



Section Streak.
Import Quiz.

Lemma update_streak_keeps (s s' : SaveState) (d : Date.t) :
  update_streak_with_freeze s d = Some s' ->
  display_name s' = display_name s /\ total_points s' = total_points s
  /\ history s' = history s /\ category_stats s' = category_stats s
  /\ badges s' = badges s /\ room_code s' = room_code s.
Proof.
  unfold update_streak_with_freeze. intros H.
  destruct (last_played s) as [[|c lp]|]; simplify_option_eq;
    repeat case_match; simplify_eq; done.
Qed.

Lemma update_streak_total (s : SaveState) (d : Date.t) :
  last_played_ok s -> is_Some (update_streak_with_freeze s d).
Proof.
  unfold last_played_ok, update_streak_with_freeze.
  destruct (last_played s) as [[|c lp]|]; [eauto| |eauto].
  intros [?|[l Hl]]; [done|]. rewrite Hl. cbn.
  repeat case_match; eauto.
Qed.

(** C9.  [update_streak_with_freeze] on a save whose stored date is absent
    or a date: with no prior play date the streak becomes 1; with a prior
    date, a day-delta of 0 changes nothing, a delta of 1 adds 1 to the
    streak, a larger delta uses one freeze and adds 1 to the streak when a
    freeze is left, and resets the streak to 1 when none is. *)
Theorem update_streak_with_freeze_cases
    (save : SaveState) (playing : Date.t) :
  last_played_ok save ->
  exists save', update_streak_with_freeze save playing = Some save'
    /\ (last_played save = None -> streak save' = 1)
    /\ (forall lp last,
          last_played save = Some lp -> Date.fromisoformat lp = Some last ->
          let delta := Date.days_between playing last in
          (delta = 0 -> save' = save)
          /\ (delta = 1 ->
              streak save' = streak save + 1
              /\ streak_freezes save' = streak_freezes save)
          /\ (1 < delta -> 0 < streak_freezes save ->
              streak save' = streak save + 1
              /\ streak_freezes save' = streak_freezes save - 1)
          /\ (1 < delta -> streak_freezes save = 0 ->
              streak save' = 1 /\ streak_freezes save' = 0)).
Proof.
  intros Hok.
  destruct (update_streak_total save playing Hok) as [save' E].
  exists save'. split; [exact E|]. split.
  - intros Hn. unfold update_streak_with_freeze in E. rewrite Hn in E.
    now injection E as <-.
  - intros lp last Hlp Hlast delta.
    unfold update_streak_with_freeze in E. rewrite Hlp in E.
    destruct lp as [|c lp]; [discriminate Hlast|].
    rewrite Hlast in E. cbn [mbind option_bind] in E. fold delta in E.
    destruct (delta =? 0) eqn:E0; [|destruct (delta =? 1) eqn:E1;
      [|destruct (1 <? delta) eqn:E2;
        [destruct (0 <? streak_freezes save) eqn:E3|]]];
      injection E as <-; cbn [streak streak_freezes];
      repeat split; lia.
Qed.

End Streak.

Section Session.
Import Quiz.

Lemma record_day_recorded (a : App) :
  recorded_today a = Some (Date.isoformat (date (play a))) ->
  record_day a = Some a.
Proof.
  intros H. unfold record_day. now rewrite bool_decide_eq_true_2.
Qed.

Lemma recorded_score_snoc (p : PlaySession) (sv : SaveState) h c b rt qs :
  recorded_score
    (mkApp p (mkSave (display_name sv) (total_points sv + score_today p)
                (streak sv) (last_played sv) (streak_freezes sv)
                (h ++ [day_record p]) c b (room_code sv)) rt qs)
  = Some (score_today p).
Proof.
  unfold recorded_score. cbn [save history]. rewrite last_snoc.
  unfold day_record. reflexivity.
Qed.

(** The completion block on a session that finished by progress. *)
Lemma record_day_by_progress (a : App) :
  finished_by_progress (play a) = true ->
  recorded_today a <> Some (Date.isoformat (date (play a))) ->
  last_played_ok (save a) ->
  exists a', record_day a = Some a'
    /\ play a' = play a
    /\ recorded_today a' = Some (Date.isoformat (date (play a)))
    /\ recorded_score a' = Some (score_today (play a))
    /\ total_points (save a') = total_points (save a) + score_today (play a).
Proof.
  intros Hf Hr Hok. unfold record_day.
  rewrite bool_decide_eq_false_2 by assumption.
  destruct (update_streak_total (save a) (date (play a)) Hok) as [sv Hsv].
  rewrite Hsv. cbn [mbind option_bind]. rewrite Hf. cbn [negb andb].
  destruct (update_streak_keeps _ _ _ Hsv) as (_ & Ht & Hh & _).
  eexists. split; [reflexivity|]. cbn [play recorded_today save total_points].
  repeat split.
  - apply recorded_score_snoc.
  - now rewrite Ht.
Qed.
End Session.

Section ProgressFinish.
Import Quiz.

Lemma stamp_start_fields (now : Z) (p : PlaySession) :
  let p' := stamp_start now p in
  date p' = date p /\ questions p' = questions p /\ idx p' = idx p
  /\ score_today p' = score_today p /\ results p' = results p
  /\ answered p' = answered p /\ used_hint p' = used_hint p
  /\ completed p' = completed p /\ correct_streak p' = correct_streak p
  /\ answered_count p' = answered_count p
  /\ progress_visual p' = progress_visual p
  /\ finished_by_progress p' = finished_by_progress p.
Proof. unfold stamp_start. destruct (start_ts p); repeat split. Qed.

Lemma submit_finishes_day
    (now : Z) (a : App) (q : Question) (ans : string) (ok : bool) :
  completed (play a) = false ->
  answered (play a) = false ->
  questions (play a) !! idx (play a) = Some q ->
  last_played_ok (save a) ->
  let p := score_answer q ans ok (stamp_start now (play a)) in
  (1 <= progress_visual p)%Q ->
  answered_count p <= question_count p ->
  let total :=
    score_today p
    + PROGRESS_FINISH_PER_Q * (question_count p - answered_count p) in
  exists a', script now (Submit ans ok) a = Some a'
    /\ completed (play a') = true
    /\ finished_by_progress (play a') = true
    /\ answered_count (play a') = answered_count p
    /\ date (play a') = date (play a)
    /\ score_today (play a') = total
    /\ (recorded_today a <> Some (Date.isoformat (date (play a))) ->
        recorded_today a' = Some (Date.isoformat (date (play a)))
        /\ recorded_score a' = Some total
        /\ total_points (save a') = total_points (save a) + total).
Proof.
  intros Hc Ha Hq Hok p Hp Hrem total.
  destruct (stamp_start_fields now (play a))
    as (Sd & Sq & Si & Ss & Sr & San & Sh & Sc & Scs & Sac & Sp & Sf).
  unfold script. rewrite Hc, Hq. cbn [mbind option_bind].
  rewrite San, Ha. fold p.
  assert (completed p = false) as Hcp by (subst p; cbn; congruence).
  assert (date p = date (play a)) as Hdp by (subst p; cbn; congruence).
  unfold finish_day_by_progress_if_needed.
  rewrite Hcp. apply Qle_bool_iff in Hp. rewrite Hp. cbn [negb andb].
  rewrite Z.max_r by lia.
  clearbody p.
  set (sc := if 0 <? _ then _ else _).
  assert (sc = total) as Hsc.
  { subst sc total. unfold PROGRESS_FINISH_PER_Q.
    destruct (0 <? _) eqn:E; [lia|]. apply Z.ltb_ge in E. lia. }
  rewrite Hsc. clear sc Hsc.
  set (p' := mkPlay _ _ _ _ _ _ _ _ _ _ _ _ _ _).
  unfold render. cbn [play set_play completed].
  destruct (decide (recorded_today a = Some (Date.isoformat (date (play a)))))
    as [Hr | Hr].
  - exists (set_play a p'). split.
    + apply record_day_recorded. cbn. now rewrite Hdp.
    + cbn. repeat split; try done.
  - destruct (record_day_by_progress (set_play a p'))
      as (a' & R & Rp & Rr & Rs & Rt).
    + reflexivity.
    + cbn. now rewrite Hdp.
    + assumption.
    + exists a'. split; [exact R|]. rewrite Rp. cbn.
      cbn in Rr, Rs, Rt. rewrite Hdp in Rr.
      repeat split; try done.
Qed.

(** C8.  When an answer takes the progress to 1.0 with questions still
    unanswered, the day is completed by progress: each unanswered question
    adds a flat 6 points whatever the answers were, and the recorded score
    is that total, with no perfect-day bonus. *)
Theorem progress_finish_flat_bonus
    (now : Z) (a : App) (q : Question) (ans : string) (ok : bool) :
  completed (play a) = false ->
  answered (play a) = false ->
  questions (play a) !! idx (play a) = Some q ->
  last_played_ok (save a) ->
  let p := score_answer q ans ok (stamp_start now (play a)) in
  (1 <= progress_visual p)%Q ->
  answered_count p < question_count p ->
  let total :=
    score_today p
    + PROGRESS_FINISH_PER_Q * (question_count p - answered_count p) in
  exists a', script now (Submit ans ok) a = Some a'
    /\ completed (play a') = true
    /\ finished_by_progress (play a') = true
    /\ score_today (play a') = total
    /\ (recorded_today a <> Some (Date.isoformat (date (play a))) ->
        recorded_score a' = Some total
        /\ total_points (save a') = total_points (save a) + total).
Proof.
  intros Hc Ha Hq Hok p Hp Hrem total.
  destruct (submit_finishes_day now a q ans ok Hc Ha Hq Hok Hp)
    as (a' & R & F1 & F2 & _ & _ & F3 & F4); [fold p; lia|].
  exists a'. repeat split; try assumption; now apply F4.
Qed.

End ProgressFinish.

Section AllCorrect.
Import Quiz.
Open Scope Q_scope.




Lemma scaled_lt_1 (x n : Q) : 0 < n -> x * n < n -> x < 1.
Proof.
  intros Hn H. apply (Qmult_lt_r _ _ n Hn). now rewrite Qmult_1_l.
Qed.



End AllCorrect.

Section AllCorrectRun.
Import Quiz.

Variable now : Z.
Variable qs : list Question.
Let n : Z := Z.of_nat (length qs).








End AllCorrectRun.

Section FinishIndex.
Import Quiz.
Open Scope Q_scope.



End FinishIndex.

Section PerfectDay.
Import Quiz.


End PerfectDay.

Section TextPasses.
Import Text.
#[local] Open Scope N_scope.

Section Kinds.

Lemma kind_space (c : N) :
  is_space c = match kind_of c with KSpace => true | _ => false end.
Proof. unfold kind_of. now repeat case_match. Qed.

Lemma kind_comma (c : N) :
  (c =? COMMA) = match kind_of c with KComma => true | _ => false end.
Proof.
  unfold kind_of. destruct (c =? COMMA) eqn:E.
  - apply N.eqb_eq in E. now subst.
  - now repeat case_match.
Qed.

Lemma kind_period (c : N) :
  (c =? PERIOD) = match kind_of c with KPeriod => true | _ => false end.
Proof.
  unfold kind_of. destruct (c =? PERIOD) eqn:E.
  - apply N.eqb_eq in E. now subst.
  - now repeat case_match.
Qed.

Lemma kind_comma_eq (c : N) : kind_of c = KComma -> c = COMMA.
Proof.
  intros H. pose proof (kind_comma c) as E. rewrite H in E.
  now apply N.eqb_eq.
Qed.

Lemma kind_period_eq (c : N) : kind_of c = KPeriod -> c = PERIOD.
Proof.
  intros H. pose proof (kind_period c) as E. rewrite H in E.
  now apply N.eqb_eq.
Qed.

Lemma plain_space_eq (c : N) :
  plain c = true -> kind_of c = KSpace -> c = SPACE.
Proof.
  unfold plain. intros H K. pose proof (kind_space c) as E.
  rewrite K in E. rewrite E in H.
  apply andb_true_iff in H as [_ H]. cbn in H. now apply N.eqb_eq.
Qed.

End Kinds.

Ltac kinds :=
  repeat match goal with
  | H : context [is_space ?c] |- _ => rewrite (kind_space c) in H
  | |- context [is_space ?c] => rewrite (kind_space c)
  | H : context [?c =? COMMA] |- _ => rewrite (kind_comma c) in H
  | |- context [?c =? COMMA] => rewrite (kind_comma c)
  | H : context [?c =? PERIOD] |- _ => rewrite (kind_period c) in H
  | |- context [?c =? PERIOD] => rewrite (kind_period c)
  end.

(** Evaluate the neighbour predicates once the kinds are known. *)
Ltac ok_eval :=
  unfold ok_tidy, ok_commas, ok_periods, ok_spaced, ok_single, plain_opt in *;
  cbn [is_kind] in *;
  repeat match goal with
  | K : kind_of ?c = _ |- _ => rewrite !K in *
  end;
  cbn [kind_eqb negb andb orb] in *.

Ltac destruct_kinds :=
  repeat match goal with
  | |- context [is_kind _ ?o] =>
      is_var o; destruct o as [?p|]; cbn [is_kind] in *
  | H : context [is_kind _ ?o] |- _ =>
      is_var o; destruct o as [?p|]; cbn [is_kind] in *
  | |- context [kind_of ?c] => destruct (kind_of c); cbn [kind_eqb] in *
  | H : context [kind_of ?c] |- _ =>
      destruct (kind_of c); cbn [kind_eqb] in *
  end.

Ltac bool_solve :=
  solve [ ok_eval; destruct_kinds;
          cbn [head is_kind kind_eqb negb andb orb] in *;
          repeat match goal with
          | H : context [plain ?c] |- _ => destruct (plain c)
          | |- context [plain ?c] => destruct (plain c)
          end;
          cbn [negb andb orb] in *; try discriminate; try reflexivity;
          try congruence ].

Section Collapse.

Lemma visible_prepared (s : text) :
  forallb visible (ctrl_to_space (remove_zw s)) = true.
Proof.
  induction s as [|c s IH]; [reflexivity|].
  unfold remove_zw. cbn [List.filter].
  destruct (is_zw c) eqn:Z; cbn [negb]; [exact IH|].
  cbn [ctrl_to_space List.map forallb]. fold (remove_zw s).
  fold (ctrl_to_space (remove_zw s)). rewrite IH, andb_true_r.
  destruct (is_ctrl c) eqn:C; [reflexivity|].
  unfold visible. now rewrite Z, C.
Qed.

Lemma visible_plain (c : N) :
  visible c = true -> kind_of c <> KSpace -> plain c = true.
Proof.
  unfold visible, plain. intros -> K. rewrite kind_space.
  now destruct (kind_of c).
Qed.

Lemma plain_SPACE : plain SPACE = true.
Proof. reflexivity. Qed.

Lemma kind_SPACE : kind_of SPACE = KSpace.
Proof. reflexivity. Qed.

Lemma collapse_single (s : text) :
  forall (b : bool) (prev : option N),
    forallb visible s = true -> b = is_kind KSpace prev ->
    chain ok_single prev (collapse_from b s) = true.
Proof.
  induction s as [|c s IH]; intros b prev Hv Hb.
  - cbn [collapse_from chain]. ok_eval. now rewrite andb_false_r.
  - cbn [forallb] in Hv. apply andb_true_iff in Hv as [Hc Hs].
    cbn [collapse_from]. kinds. destruct (kind_of c) eqn:K.
    1:{ destruct b.
        - now apply IH.
        - cbn [chain]. rewrite (IH true (Some SPACE)) by done.
          ok_eval. rewrite plain_SPACE, kind_SPACE, <- Hb. reflexivity. }
    all: cbn [chain]; rewrite (IH false (Some c)) by (ok_eval; done);
      rewrite andb_true_r; ok_eval;
      rewrite (visible_plain c Hc) by congruence;
      now rewrite andb_false_r.
Qed.

Lemma prepared_single (s : text) :
  chain ok_single None (collapse_ws (ctrl_to_space (remove_zw s))) = true.
Proof. apply collapse_single; [apply visible_prepared | reflexivity]. Qed.

End Collapse.

Section Passes.

Lemma plain_COMMA : plain COMMA = true.
Proof. reflexivity. Qed.

Lemma kind_COMMA : kind_of COMMA = KComma.
Proof. reflexivity. Qed.

(** [space_commas] on a text with single spaces. *)
Lemma commas_spaced (s : text) :
  forall (b : bool) (prev prev' : option N),
    chain ok_single prev s = true ->
    (if b then prev' = Some SPACE
     else is_kind KComma prev' = false
          /\ (is_kind KSpace prev' = true -> is_kind KSpace prev = true)) ->
    chain ok_spaced prev' (comma_from b s) = true.
Proof.
  induction s as [|c s IH]; intros b prev prev' Hin Hinv.
  - cbn [comma_from chain]. destruct b.
    + subst prev'. reflexivity.
    + destruct Hinv as [Hc _]. ok_eval. rewrite Hc.
      now rewrite andb_false_r.
  - cbn [chain] in Hin. apply andb_true_iff in Hin as [Hpc Hin].
    cbn [comma_from]. kinds. destruct (kind_of c) eqn:K.
    + (* a space *)
      destruct b; cbn [orb].
      * subst prev'. eapply IH; [exact Hin | reflexivity].
      * destruct Hinv as [Hc Hs].
        destruct (next_nonspace_is COMMA s).
        -- eapply IH; [exact Hin|]. cbn beta iota. split; [exact Hc|].
           intros _. cbn [is_kind]. now rewrite K.
        -- cbn [chain]. rewrite (IH false (Some c) (Some c) Hin)
             by (cbn [is_kind]; rewrite K; done).
           rewrite andb_true_r. ok_eval. rewrite Hc.
           apply andb_true_iff in Hpc as [Hp Hd]. rewrite Hp.
           destruct (is_kind KSpace prev') eqn:E; [|reflexivity].
           rewrite (Hs eq_refl) in Hd. discriminate Hd.
    + (* a comma *)
      cbn [chain].
      rewrite (IH true (Some c) (Some SPACE) Hin eq_refl).
      ok_eval.
      rewrite plain_COMMA, plain_SPACE, kind_COMMA, kind_SPACE.
      cbn [kind_eqb negb andb orb]. rewrite !andb_false_r. cbn [negb andb].
      destruct b.
      * subst prev'. reflexivity.
      * destruct Hinv as [-> _]. reflexivity.
    + cbn [chain].
      rewrite (IH false (Some c) (Some c) Hin)
        by (cbn [is_kind]; rewrite K; done).
      rewrite andb_true_r. ok_eval.
      apply andb_true_iff in Hpc as [-> _]. rewrite !andb_false_r.
      cbn [negb andb]. destruct b.
      * subst prev'. reflexivity.
      * destruct Hinv as [-> _]. reflexivity.
    + cbn [chain].
      rewrite (IH false (Some c) (Some c) Hin)
        by (cbn [is_kind]; rewrite K; done).
      rewrite andb_true_r. ok_eval.
      apply andb_true_iff in Hpc as [-> _]. rewrite !andb_false_r.
      cbn [negb andb]. destruct b.
      * subst prev'. reflexivity.
      * destruct Hinv as [-> _]. reflexivity.
Qed.

Lemma chain_head (ok : option N -> option N -> bool) (prev : option N)
    (s : text) :
  chain ok prev s = true -> ok prev (head s) = true.
Proof.
  destruct s as [|c s]; cbn; [done|]. intros H.
  now apply andb_true_iff in H as [H _].
Qed.

Lemma lookahead_head (ch : N) (t : text) :
  is_kind KSpace (head t) = false ->
  next_nonspace_is ch t
  = match t with d :: _ => d =? ch | [] => false end.
Proof.
  destruct t as [|d t]; [reflexivity|]. cbn [head is_kind].
  intros H. unfold next_nonspace_is. cbn [drop_ws]. kinds.
  now destruct (kind_of d).
Qed.

Lemma single_after_space (ok : option N -> option N -> bool) (c : N)
    (t : text) :
  (forall p q, ok p q = true -> ok_single p q = true) ->
  kind_of c = KSpace -> chain ok (Some c) t = true ->
  is_kind KSpace (head t) = false.
Proof.
  intros Hok K H. apply chain_head, Hok in H. ok_eval.
  apply andb_true_iff in H as [_ H]. now destruct (is_kind KSpace (head t)).
Qed.

Lemma spaced_single (p q : option N) :
  ok_spaced p q = true -> ok_single p q = true.
Proof. unfold ok_spaced. intros H. now apply andb_true_iff in H. Qed.

Lemma periods_closed (n : nat) :
  forall (s : text) (prev : option N),
    (length s <= n)%nat ->
    chain ok_spaced prev s = true ->
    is_kind KSpace prev && is_kind KPeriod (head s) = false ->
    chain ok_periods prev (close_periods s) = true.
Proof.
  induction n as [|n IH]; intros s prev Hn Hin Hpre.
  - destruct s; [|cbn in Hn; lia]. cbn [close_periods chain] in *.
    bool_solve.
  - destruct s as [|c t].
    { cbn [close_periods chain] in *. bool_solve. }
    cbn [length] in Hn. cbn [chain] in Hin.
    apply andb_true_iff in Hin as [Hpc Hin].
    cbn [close_periods]. kinds. destruct (kind_of c) eqn:K; cbn [andb].
    + pose proof (single_after_space _ c t spaced_single K Hin) as Hh.
      rewrite (lookahead_head _ _ Hh).
      destruct t as [|d t'].
      * cbn [chain close_periods] in *. bool_solve.
      * kinds. cbn [head is_kind] in Hh.
        cbn [chain] in Hin. apply andb_true_iff in Hin as [Hcd Hin].
        destruct (kind_of d) eqn:D; try discriminate Hh.
        -- cbn [chain]. rewrite (IH (d :: t') (Some c)).
           ++ rewrite andb_true_r. bool_solve.
           ++ cbn in *. lia.
           ++ cbn [chain]. now rewrite Hcd, Hin.
           ++ cbn [head]. bool_solve.
        -- cbn [close_periods]. kinds. rewrite D. cbn [andb chain].
           rewrite (IH t' (Some d)).
           ++ rewrite andb_true_r. bool_solve.
           ++ cbn in *. lia.
           ++ exact Hin.
           ++ bool_solve.
        -- cbn [chain]. rewrite (IH (d :: t') (Some c)).
           ++ rewrite andb_true_r. bool_solve.
           ++ cbn in *. lia.
           ++ cbn [chain]. now rewrite Hcd, Hin.
           ++ cbn [head]. bool_solve.
    + cbn [chain]. rewrite (IH t (Some c)).
      * rewrite andb_true_r. cbn [head] in Hpre. bool_solve.
      * lia.
      * exact Hin.
      * bool_solve.
    + cbn [chain]. rewrite (IH t (Some c)).
      * rewrite andb_true_r. cbn [head] in Hpre. bool_solve.
      * lia.
      * exact Hin.
      * bool_solve.
    + cbn [chain]. rewrite (IH t (Some c)).
      * rewrite andb_true_r. cbn [head] in Hpre. bool_solve.
      * lia.
      * exact Hin.
      * bool_solve.
Qed.

Lemma plain_space_test (c : N) :
  plain c = true -> (c =? SPACE) = kind_eqb KSpace (kind_of c).
Proof.
  intros Hp. destruct (kind_of c) eqn:K; cbn [kind_eqb].
  - rewrite (plain_space_eq c Hp K). reflexivity.
  - destruct (c =? SPACE) eqn:E; [|reflexivity].
    apply N.eqb_eq in E. subst c. discriminate K.
  - destruct (c =? SPACE) eqn:E; [|reflexivity].
    apply N.eqb_eq in E. subst c. discriminate K.
  - destruct (c =? SPACE) eqn:E; [|reflexivity].
    apply N.eqb_eq in E. subst c. discriminate K.
Qed.

Lemma chain_plain (ok : option N -> option N -> bool) (prev : option N)
    (c : N) :
  (forall p q, ok p q = true -> ok_single p q = true) ->
  ok prev (Some c) = true -> plain c = true.
Proof.
  intros Hok H. apply Hok in H. unfold ok_single in H.
  now apply andb_true_iff in H as [H _].
Qed.

Lemma periods_single (p q : option N) :
  ok_periods p q = true -> ok_single p q = true.
Proof.
  unfold ok_periods. intros H.
  apply andb_true_iff in H as [H _]. now apply andb_true_iff in H as [H _].
Qed.

Lemma close_commas_pair (c d : N) (t : text) :
  close_commas (c :: d :: t)
  = if (c =? SPACE) && (d =? COMMA) then COMMA :: close_commas t
    else c :: close_commas (d :: t).
Proof. reflexivity. Qed.

Lemma commas_closed (n : nat) :
  forall (s : text) (prev : option N),
    (length s <= n)%nat ->
    chain ok_periods prev s = true ->
    is_kind KSpace prev && is_kind KComma (head s) = false ->
    chain ok_commas prev (close_commas s) = true.
Proof.
  induction n as [|n IH]; intros s prev Hn Hin Hpre.
  - destruct s; [|cbn in Hn; lia]. cbn [close_commas chain] in *.
    bool_solve.
  - destruct s as [|c [|d t']].
    + cbn [close_commas chain] in *. bool_solve.
    + cbn [close_commas chain head] in *. bool_solve.
    + cbn [length] in Hn. cbn [chain] in Hin.
      apply andb_true_iff in Hin as [Hpc Hin].
      apply andb_true_iff in Hin as [Hcd Hin].
      pose proof (chain_plain _ _ _ periods_single Hpc) as Pc.
      rewrite close_commas_pair, (plain_space_test c Pc). kinds.
      destruct (kind_of c) eqn:K; destruct (kind_of d) eqn:D;
        cbn [kind_eqb andb chain head] in *;
        try (exfalso; clear IH; bool_solve);
        try (rewrite (IH (d :: t') (Some c));
             [rewrite andb_true_r; bool_solve
             | cbn; lia
             | cbn [chain]; now rewrite Hcd, Hin
             | cbn [head]; bool_solve]).
      pose proof (kind_comma_eq d D). subst d.
      rewrite (IH t' (Some COMMA)).
      * rewrite andb_true_r. bool_solve.
      * lia.
      * exact Hin.
      * bool_solve.
Qed.

End Passes.

Section Strip.

Lemma forallb_space_rev (s : text) :
  forallb is_space (rev s) = forallb is_space s.
Proof.
  induction s as [|c s IH]; [reflexivity|].
  cbn [rev forallb]. rewrite forallb_app, IH. cbn [forallb].
  rewrite andb_true_r. apply andb_comm.
Qed.

Lemma drop_ws_app (a b : text) :
  drop_ws (a ++ b)
  = if forallb is_space a then drop_ws b else drop_ws a ++ b.
Proof.
  induction a as [|c a IH]; [reflexivity|].
  cbn [app drop_ws forallb]. destruct (is_space c); [exact IH | reflexivity].
Qed.

Lemma drop_trailing_cons (c : N) (t : text) :
  rev (drop_ws (rev (c :: t)))
  = if forallb is_space t then (if is_space c then [] else [c])
    else c :: rev (drop_ws (rev t)).
Proof.
  cbn [rev]. rewrite drop_ws_app, forallb_space_rev.
  destruct (forallb is_space t).
  - cbn [drop_ws]. now destruct (is_space c).
  - rewrite rev_app_distr. reflexivity.
Qed.

Lemma drop_ws_head (t : text) :
  is_kind KSpace (head t) = false -> drop_ws t = t.
Proof.
  destruct t as [|d t]; [reflexivity|]. cbn [head is_kind drop_ws].
  kinds. now destruct (kind_of d).
Qed.

Lemma strip_tail (s : text) :
  forall p : N,
    chain ok_commas (Some p) s = true ->
    (is_kind KSpace (Some p) = true -> forallb is_space s = false) ->
    chain ok_tidy (Some p) (rev (drop_ws (rev s))) = true.
Proof.
  induction s as [|c t IH]; intros p Hin Hp.
  - cbn [rev drop_ws chain]. unfold ok_tidy.
    destruct (is_kind KSpace (Some p)); [|reflexivity].
    now specialize (Hp eq_refl).
  - cbn [chain] in Hin. apply andb_true_iff in Hin as [Hpc Hin].
    rewrite drop_trailing_cons.
    destruct (forallb is_space t) eqn:A.
    + kinds. destruct (kind_of c) eqn:K.
      * cbn [chain]. unfold ok_tidy.
        destruct (is_kind KSpace (Some p)); [|reflexivity].
        cbn [forallb] in Hp. rewrite A in Hp. kinds. rewrite K in Hp.
        now specialize (Hp eq_refl).
      * cbn [chain]. unfold ok_tidy at 1 2. rewrite Hpc. cbn [is_kind].
        now rewrite K.
      * cbn [chain]. unfold ok_tidy at 1 2. rewrite Hpc. cbn [is_kind].
        now rewrite K.
      * cbn [chain]. unfold ok_tidy at 1 2. rewrite Hpc. cbn [is_kind].
        now rewrite K.
    + cbn [chain]. unfold ok_tidy at 1. rewrite Hpc.
      apply IH; [exact Hin | intros _; reflexivity].
Qed.

Lemma commas_single (p q : option N) :
  ok_commas p q = true -> ok_single p q = true.
Proof.
  unfold ok_commas. intros H.
  apply andb_true_iff in H as [H _]. now apply andb_true_iff in H as [H _].
Qed.

Lemma strip_head (d : N) (u : text) :
  plain d = true -> kind_of d <> KSpace ->
  chain ok_commas (Some d) u = true ->
  chain ok_tidy None (rev (drop_ws (rev (d :: u)))) = true.
Proof.
  intros Pd Kd Hin. rewrite drop_trailing_cons. kinds.
  assert (ok_tidy None (Some d) = true) as Hd.
  { unfold ok_tidy, plain_opt. rewrite Pd. cbn [is_kind].
    now destruct (kind_of d). }
  destruct (forallb is_space u) eqn:A.
  - destruct (kind_of d) eqn:K; try congruence;
      cbn [chain]; rewrite Hd; unfold ok_tidy; cbn [is_kind];
      now rewrite K.
  - cbn [chain]. rewrite Hd. apply strip_tail; [exact Hin|].
    intros _. exact A.
Qed.

Lemma strip_tidy (s : text) :
  chain ok_commas None s = true -> chain ok_tidy None (strip s) = true.
Proof.
  intros Hin. unfold strip. destruct s as [|c t]; [reflexivity|].
  cbn [chain] in Hin. apply andb_true_iff in Hin as [Hc Hin].
  pose proof (chain_plain _ _ _ commas_single Hc) as Pc.
  cbn [drop_ws]. kinds. destruct (kind_of c) eqn:K.
  - rewrite (drop_ws_head t)
      by (eapply single_after_space; [exact commas_single | exact K | exact Hin]).
    destruct t as [|d u]; [reflexivity|].
    cbn [chain] in Hin. apply andb_true_iff in Hin as [Hcd Hin].
    apply strip_head; [|clear Hin; intros D; bool_solve|exact Hin].
    now apply (chain_plain _ _ _ commas_single Hcd).
  - apply strip_head; [exact Pc | congruence | exact Hin].
  - apply strip_head; [exact Pc | congruence | exact Hin].
  - apply strip_head; [exact Pc | congruence | exact Hin].
Qed.

(** Every text [tidy] returns is in the form [ok_tidy] describes. *)
Lemma tidy_in_form (s : text) : chain ok_tidy None (tidy s) = true.
Proof.
  unfold tidy. apply strip_tidy.
  eapply commas_closed; [reflexivity| |reflexivity].
  eapply periods_closed; [reflexivity| |reflexivity].
  unfold space_commas.
  eapply (commas_spaced _ false None None); [apply prepared_single|].
  split; [reflexivity | discriminate].
Qed.

End Strip.

Section TidyFixed.

Lemma tidy_single (p q : option N) :
  ok_tidy p q = true -> ok_single p q = true.
Proof. destruct p, q; intros H; bool_solve. Qed.

Lemma chain_mono (ok1 ok2 : option N -> option N -> bool) (s : text) :
  (forall p q, ok1 p q = true -> ok2 p q = true) ->
  forall prev, chain ok1 prev s = true -> chain ok2 prev s = true.
Proof.
  intros Hok. induction s as [|c s IH]; intros prev H; cbn [chain] in *.
  - now apply Hok.
  - apply andb_true_iff in H as [H1 H2].
    now rewrite (Hok _ _ H1), (IH _ H2).
Qed.

Lemma plain_not_zw (c : N) : plain c = true -> is_zw c = false.
Proof. unfold plain. now destruct (is_zw c). Qed.

Lemma plain_not_ctrl (c : N) : plain c = true -> is_ctrl c = false.
Proof. unfold plain. destruct (is_zw c), (is_ctrl c); cbn; congruence. Qed.

Lemma single_untouched (s : text) :
  forall prev,
    chain ok_single prev s = true ->
    remove_zw s = s /\ ctrl_to_space s = s
    /\ collapse_from (is_kind KSpace prev) s = s.
Proof.
  induction s as [|c s IH]; intros prev H; [done|].
  cbn [chain] in H. apply andb_true_iff in H as [Hc H].
  destruct (IH _ H) as (I1 & I2 & I3).
  pose proof (chain_plain _ _ _ (fun _ _ h => h) Hc) as Pc.
  unfold remove_zw, ctrl_to_space in *.
  cbn [List.filter List.map collapse_from].
  rewrite (plain_not_zw c Pc), (plain_not_ctrl c Pc). cbn [negb].
  rewrite I1, I2. repeat split.
  cbn [is_kind] in I3. kinds. destruct (kind_of c) eqn:K;
    cbn [kind_eqb] in I3; rewrite I3; try reflexivity.
  rewrite (plain_space_eq c Pc K).
  destruct (is_kind KSpace prev) eqn:E; [|reflexivity].
  exfalso. clear IH I1 I2 I3. unfold ok_single in Hc. rewrite E in Hc.
  cbn [is_kind] in Hc. rewrite K in Hc. cbn in Hc.
  now rewrite andb_false_r in Hc.
Qed.

Lemma pad_head (want : option N -> bool) (s : text) :
  head (pad want s) = head s.
Proof. destruct s as [|c s]; [reflexivity|]. cbn. now case_match. Qed.

End TidyFixed.

Section TidyFixed2.

Lemma lookahead_at (ch : N) (t : text) :
  is_kind KSpace (head t) = false ->
  next_nonspace_is ch t
  = match head t with Some d => d =? ch | None => false end.
Proof. intros H. rewrite (lookahead_head _ _ H). now destruct t. Qed.

Lemma space_commas_pads (s : text) :
  forall prev,
    chain ok_tidy prev s = true ->
    comma_from false s = pad not_space s
    /\ comma_from true s = pad not_space (drop_ws s).
Proof.
  induction s as [|c t IH]; intros prev H; [done|].
  cbn [chain] in H. apply andb_true_iff in H as [Hc H].
  destruct (IH _ H) as [I1 I2].
  pose proof (chain_plain _ _ _ tidy_single Hc) as Pc.
  pose proof (chain_head _ _ _ H) as Hh.
  cbn [comma_from drop_ws pad]. kinds.
  destruct (kind_of c) eqn:K; cbn [orb andb pad]; kinds; rewrite ?K;
    cbn [andb].
  - (* a space: kept, since no comma follows *)
    assert (is_kind KSpace (head t) = false
            /\ match head t with Some d => d =? COMMA | None => false end
               = false) as [E1 E2].
    { clear IH I1 I2 H. destruct (head t) as [d|]; [|done]. kinds.
      split; bool_solve. }
    rewrite (lookahead_at _ _ E1), E2. now rewrite I1, I2.
  - (* a comma *)
    rewrite I2, (kind_comma_eq c K). split.
    + change (not_space (head t)) with (negb (is_kind KSpace (head t))).
      destruct (is_kind KSpace (head t)) eqn:E; cbn [negb].
      * destruct t as [|d u]; [done|]. cbn [head is_kind] in E.
        cbn [drop_ws pad]. kinds. destruct (kind_of d) eqn:D; try done.
        cbn [andb].
        cbn [chain] in H. apply andb_true_iff in H as [Hd H].
        rewrite (plain_space_eq d (chain_plain _ _ _ tidy_single Hd) D).
        rewrite drop_ws_head; [reflexivity|].
        eapply single_after_space; [exact tidy_single | exact D | exact H].
      * now rewrite (drop_ws_head t E).
    + change (not_space (head t)) with (negb (is_kind KSpace (head t))).
      destruct (is_kind KSpace (head t)) eqn:E; cbn [negb].
      * destruct t as [|d u]; [done|]. cbn [head is_kind] in E.
        cbn [drop_ws pad]. kinds. destruct (kind_of d) eqn:D; try done.
        cbn [andb].
        cbn [chain] in H. apply andb_true_iff in H as [Hd H].
        rewrite (plain_space_eq d (chain_plain _ _ _ tidy_single Hd) D).
        rewrite drop_ws_head; [reflexivity|].
        eapply single_after_space; [exact tidy_single | exact D | exact H].
      * now rewrite (drop_ws_head t E).
  - now rewrite I1.
  - now rewrite I1.
Qed.

Lemma close_periods_pads (s : text) :
  forall prev,
    chain ok_tidy prev s = true ->
    close_periods (pad not_space s) = pad comma_or_end s.
Proof.
  induction s as [|c t IH]; intros prev H; [done|].
  cbn [chain] in H. apply andb_true_iff in H as [Hc H].
  pose proof (IH _ H) as I.
  pose proof (chain_head _ _ _ H) as Hh.
  cbn [pad]. kinds. unfold not_space at 1, comma_or_end at 1.
  destruct (kind_of c) eqn:K; cbn [andb].
  - (* a space the text had: no period follows it *)
    cbn [close_periods]. kinds. rewrite K. cbn [andb].
    assert (is_kind KSpace (head t) = false
            /\ match head t with Some d => d =? PERIOD | None => false end
               = false) as [E1 E2].
    { clear IH I H. destruct (head t) as [d|]; [|done]. kinds.
      split; bool_solve. }
    rewrite lookahead_at by now rewrite pad_head.
    now rewrite pad_head, E2, I.
  - destruct (is_kind KSpace (head t)) eqn:E; cbn [negb andb].
    + cbn [close_periods]. kinds. rewrite K. cbn [andb]. now rewrite I.
    + cbn [close_periods]. kinds. rewrite K. cbn [andb].
      change (is_space SPACE) with true. cbn [andb].
      rewrite lookahead_at by now rewrite pad_head.
      rewrite pad_head, I.
      destruct (head t) as [d|] eqn:Eh; cbn [is_kind]; [|reflexivity].
      kinds. now destruct (kind_of d).
  - cbn [close_periods]. kinds. rewrite K. cbn [andb]. now rewrite I.
  - cbn [close_periods]. kinds. rewrite K. cbn [andb]. now rewrite I.
Qed.

Lemma close_commas_other (c : N) (t : text) :
  (c =? SPACE) = false -> close_commas (c :: t) = c :: close_commas t.
Proof.
  intros E. destruct t as [|d t]; [reflexivity|].
  rewrite close_commas_pair, E. reflexivity.
Qed.

Lemma close_commas_keep (s : text) :
  match head s with Some d => d =? COMMA | None => false end = false ->
  close_commas (SPACE :: s) = SPACE :: close_commas s.
Proof.
  destruct s as [|d s]; [reflexivity|]. cbn [head]. intros E.
  rewrite close_commas_pair, E. now rewrite andb_false_r.
Qed.

Lemma close_commas_drop (s : text) :
  head s = Some COMMA -> close_commas (SPACE :: s) = close_commas s.
Proof.
  destruct s as [|d s]; [discriminate|]. cbn [head]. intros [= ->].
  rewrite close_commas_pair. cbn [andb N.eqb Pos.eqb SPACE COMMA].
  now rewrite close_commas_other.
Qed.

Lemma kind_not_space (c : N) :
  kind_of c <> KSpace -> (c =? SPACE) = false.
Proof.
  intros K. destruct (c =? SPACE) eqn:E; [|reflexivity].
  apply N.eqb_eq in E. now subst c.
Qed.

Lemma close_commas_pads (s : text) :
  forall prev,
    chain ok_tidy prev s = true ->
    close_commas (pad comma_or_end s) = pad at_end s.
Proof.
  induction s as [|c t IH]; intros prev H; [done|].
  cbn [chain] in H. apply andb_true_iff in H as [Hc H].
  pose proof (IH _ H) as I.
  pose proof (chain_head _ _ _ H) as Hh.
  pose proof (chain_plain _ _ _ tidy_single Hc) as Pc.
  cbn [pad]. kinds. unfold comma_or_end at 1.
  destruct (kind_of c) eqn:K; cbn [andb].
  - rewrite (plain_space_eq c Pc K), close_commas_keep, I; [reflexivity|].
    rewrite pad_head. clear IH I H.
    destruct (head t) as [d|]; [|done]. kinds. bool_solve.
  - rewrite (kind_comma_eq c K).
    destruct (head t) as [d|] eqn:Eh; cbn [is_kind at_end negb andb].
    + destruct (kind_of d) eqn:D; cbn [kind_eqb negb andb].
      * now rewrite close_commas_other, I.
      * rewrite close_commas_other by reflexivity.
        rewrite close_commas_drop, I; [reflexivity|].
        now rewrite pad_head, Eh, (kind_comma_eq d D).
      * now rewrite close_commas_other, I.
      * exfalso. clear IH I H. bool_solve.
    + rewrite close_commas_other by reflexivity.
      destruct t; [reflexivity | discriminate Eh].
  - destruct (head t); cbn [at_end andb];
      rewrite close_commas_other, I; try reflexivity;
      apply kind_not_space; congruence.
  - destruct (head t); cbn [at_end andb];
      rewrite close_commas_other, I; try reflexivity;
      apply kind_not_space; congruence.
Qed.

Lemma pad_not_blank (t : text) :
  forall prev,
    chain ok_tidy prev t = true -> t <> [] ->
    forallb is_space (pad at_end t) = false.
Proof.
  induction t as [|d u IH]; intros prev H Hne; [done|].
  cbn [chain] in H. apply andb_true_iff in H as [Hd H].
  cbn [pad]. kinds. destruct (kind_of d) eqn:K; cbn [andb].
  - cbn [forallb]. rewrite (IH (Some d) H); [now rewrite andb_false_r|].
    intros ->. cbn [chain] in H. clear IH. bool_solve.
  - destruct (at_end (head u)); cbn [forallb]; kinds; now rewrite K.
  - cbn [forallb]. kinds. now rewrite K.
  - cbn [forallb]. kinds. now rewrite K.
Qed.

Lemma strip_tail_pads (t : text) :
  forall prev,
    chain ok_tidy prev t = true ->
    rev (drop_ws (rev (pad at_end t))) = t.
Proof.
  induction t as [|c u IH]; intros prev H; [reflexivity|].
  cbn [chain] in H. apply andb_true_iff in H as [Hc H].
  pose proof (IH _ H) as I.
  cbn [pad]. destruct u as [|d u'].
  - cbn [head at_end pad]. cbn [chain] in H. kinds.
    destruct (kind_of c) eqn:K; cbn [andb]; rewrite drop_trailing_cons;
      cbn [forallb]; kinds; rewrite ?K; try reflexivity.
    exfalso. clear IH I. bool_solve.
  - cbn [head at_end]. rewrite andb_false_r, drop_trailing_cons.
    rewrite (pad_not_blank (d :: u') (Some c) H) by discriminate.
    now rewrite I.
Qed.

(** A text in the form [ok_tidy] describes is left as it is. *)
Lemma tidy_fixed (s : text) : chain ok_tidy None s = true -> tidy s = s.
Proof.
  intros H. unfold tidy, collapse_ws, space_commas, strip.
  destruct (single_untouched s None (chain_mono _ _ s tidy_single None H))
    as (-> & -> & E).
  cbn [is_kind] in E. rewrite E.
  destruct (space_commas_pads s None H) as [-> _].
  rewrite (close_periods_pads s None H), (close_commas_pads s None H).
  rewrite (drop_ws_head (pad at_end s));
    [now apply strip_tail_pads with (prev := None)|].
  rewrite pad_head. clear E. destruct s as [|c t]; [reflexivity|].
  cbn [chain head] in *. bool_solve.
Qed.

Lemma tidy_idempotent (s : text) : tidy (tidy s) = tidy s.
Proof. apply tidy_fixed, tidy_in_form. Qed.

End TidyFixed2.

End TextPasses.

Section CleanTextFacts.
Import Text.
#[local] Open Scope N_scope.

Lemma chain_forall (ok : option N -> option N -> bool) (P : N -> bool)
    (s : text) :
  (forall p c, ok p (Some c) = true -> P c = true) ->
  forall prev, chain ok prev s = true -> forallb P s = true.
Proof.
  intros Hok. induction s as [|c s IH]; intros prev H; [reflexivity|].
  cbn [chain forallb] in *. apply andb_true_iff in H as [H1 H2].
  now rewrite (Hok _ _ H1), (IH _ H2).
Qed.

Lemma tidy_no_zero_width (s : text) :
  forallb (fun c => negb (is_zw c)) (tidy s) = true.
Proof.
  apply (chain_forall ok_tidy _ _) with (prev := None);
    [|apply tidy_in_form].
  intros p c H. apply tidy_single in H. unfold ok_single in H.
  apply andb_true_iff in H as [H _]. cbn [plain_opt] in H.
  now rewrite (plain_not_zw c H).
Qed.

(** Whatever the normalization does elsewhere, a text whose combining
    accent is kept from its letter by a zero-width space is composed only
    on the second pass. *)
Lemma clean_text_composes_late (nfkc : text -> text) :
  nfkc [101; 8203; 769] = [101; 8203; 769] ->
  nfkc [101; 769] = [233] ->
  clean_text nfkc [101; 8203; 769] = [101; 769]
  /\ clean_text nfkc (clean_text nfkc [101; 8203; 769]) = [233].
Proof.
  intros H1 H2. unfold clean_text, normalize_unicode.
  rewrite H1. change (tidy [101; 8203; 769]) with [101; 769].
  now rewrite H2.
Qed.

(** C7 (counterexample).  With NFKC as the Unicode standard defines it
    on e, U+200B, U+0301: [clean_text] of e U+200B U+0301 is e U+0301, and
    [clean_text] of that is U+00E9, so [clean_text] is not idempotent on
    every string. *)
Lemma clean_text_not_idempotent :
  clean_text nfkc_acute_e [101; 8203; 769] = [101; 769]
  /\ clean_text nfkc_acute_e (clean_text nfkc_acute_e [101; 8203; 769])
     = [233].
Proof. vm_compute. split; reflexivity. Qed.

(** C7 (amended).  [clean_text (clean_text s)] is [clean_text s] for
    every string whose cleaned text the Unicode normalization leaves as it
    is (all ASCII text, for one); the cleaned text holds no zero-width
    character, and [clean_text] of a U+200B b is ab. *)
Theorem clean_text_idempotent_when_normalized
    (nfkc : text -> text) (s : text) :
  nfkc (clean_text nfkc s) = clean_text nfkc s ->
  clean_text nfkc (clean_text nfkc s) = clean_text nfkc s
  /\ forallb (fun c => negb (is_zw c)) (clean_text nfkc s) = true
  /\ (nfkc [97; 8203; 98] = [97; 8203; 98] ->
      clean_text nfkc [97; 8203; 98] = [97; 98]).
Proof.
  intros Hn. split; [|split].
  - unfold clean_text, normalize_unicode in *. rewrite Hn.
    apply tidy_idempotent.
  - apply tidy_no_zero_width.
  - intros H. unfold clean_text, normalize_unicode. now rewrite H.
Qed.

(** C7 (witness): the text "a ,b" followed by U+200B, a space and a
    period. *)
Lemma clean_text_idempotent_when_normalized_witness :
  clean_text nfkc_acute_e
    (clean_text nfkc_acute_e [97; 32; 44; 98; 8203; 32; 46])
  = clean_text nfkc_acute_e [97; 32; 44; 98; 8203; 32; 46]
  /\ forallb (fun c => negb (is_zw c))
       (clean_text nfkc_acute_e [97; 32; 44; 98; 8203; 32; 46]) = true
  /\ (nfkc_acute_e [97; 8203; 98] = [97; 8203; 98] ->
      clean_text nfkc_acute_e [97; 8203; 98] = [97; 98]).
Proof.
  apply (clean_text_idempotent_when_normalized nfkc_acute_e
           [97; 32; 44; 98; 8203; 32; 46]).
  reflexivity.
Defined.

End CleanTextFacts.

Section QuizExamples.
Import Quiz.



(** C8 (witness): the third correct answer of a day of four questions. *)
Lemma progress_finish_flat_bonus_witness :
  let a := two_correct_of_four in
  let p := score_answer demo_question "ok" true (stamp_start 0 (play a)) in
  let total :=
    score_today p
    + PROGRESS_FINISH_PER_Q * (question_count p - answered_count p) in
  exists a', script 0 (Submit "ok" true) a = Some a'
    /\ completed (play a') = true
    /\ finished_by_progress (play a') = true
    /\ score_today (play a') = total
    /\ (recorded_today a <> Some (Date.isoformat (date (play a))) ->
        recorded_score a' = Some total
        /\ total_points (save a') = total_points (save a) + total).
Proof.
  apply (progress_finish_flat_bonus 0 two_correct_of_four demo_question
           "ok" true);
    vm_compute; try reflexivity; try exact I; congruence.
Defined.

(** C9 (witness): a save last played two days before, three freezes
    left: one freeze is used and the streak goes from 4 to 5. *)
Lemma update_streak_with_freeze_cases_witness :
  exists save',
    update_streak_with_freeze lapsed_save DEMO_DATE = Some save'
    /\ streak save' = 5 /\ streak_freezes save' = 2.
Proof.
  destruct (update_streak_with_freeze_cases lapsed_save DEMO_DATE)
    as (save' & E & _ & H).
  - right. eexists. reflexivity.
  - exists save'. split; [exact E|].
    destruct (H "2025-10-03" (Date.mk 2025 10 3) eq_refl eq_refl)
      as (_ & _ & H3 & _).
    apply H3; reflexivity.
Defined.

End QuizExamples.

Section SaveExamples.
Import MoneyQuest.

(** C5.  A save whose state object holds no field loads, with cash 0 and
    savings 0 where [PlayerState] itself defaults them to 200 and 100; the
    other fields take the defaults of [PlayerState]. *)
Theorem import_save_empty_state
    (int_of_str : string -> option Z) (float_of_str : string -> option Q) :
  import_save int_of_str float_of_str (JObj {[ "state" := JObj ∅ ]})
  = Some (mkPlayer 1 0 0 0 680 Income_default (5 # 10) (3 # 10) (2 # 10)
                   (Some ∅) (Some []))
  /\ cash PlayerState_default = 200
  /\ savings PlayerState_default = 100.
Proof. repeat split. Qed.

(** C6 (witness): a game with a card balance and a played quiz save. *)
Lemma save_codecs_roundtrip_witness :
  import_save (fun _ => None) (fun _ => None)
    (export_save (with_debt 24 "min_pay"))
  = Some (with_debt 24 "min_pay")
  /\ Quiz.from_json (Quiz.to_json Quiz.played_save) = Some Quiz.played_save.
Proof.
  apply (save_codecs_roundtrip (fun _ => None) (fun _ => None)
           (with_debt 24 "min_pay") Quiz.played_save);
    eexists; reflexivity.
Defined.

End SaveExamples.

(** ** Further properties of the finance engine *)

Ltac compare_facts :=
  repeat match goal with
  | H : (_ ?= _)%Q = Eq |- _ => apply Qeq_alt in H
  | H : (_ ?= _)%Q = Lt |- _ => apply Qlt_alt in H
  | H : (_ ?= _)%Q = Gt |- _ => apply Qgt_alt in H
  end.

Section Rounding.
Open Scope Q_scope.

Lemma round_mono (x y : Q) : x <= y -> (Py.round x <= Py.round y)%Z.
Proof.
  intros Hxy.
  pose proof (Qfloor_resp_le _ _ Hxy) as Hf.
  destruct (Z.eq_dec (Qfloor x) (Qfloor y)) as [E | N].
  - unfold Py.round. cbv zeta. rewrite E.
    destruct (x - inject_Z (Qfloor y) ?= 1 # 2) eqn:Cx;
      destruct (y - inject_Z (Qfloor y) ?= 1 # 2) eqn:Cy;
      try (destruct (Z.even (Qfloor y))); try lia;
      compare_facts; lra.
  - destruct (round_cases x) as [-> | ->], (round_cases y) as [-> | ->]; lia.
Qed.

Lemma round2_mono (x y : Q) : x <= y -> Py.round2 x <= Py.round2 y.
Proof.
  intros Hxy. unfold Py.round2.
  assert (Py.round (x * 100) <= Py.round (y * 100))%Z as H
    by (apply round_mono; lra).
  rewrite Zle_Qle in H.
  set (a := inject_Z (Py.round (x * 100))) in *.
  set (b := inject_Z (Py.round (y * 100))) in *. clearbody a b.
  unfold Qdiv. change (/ 100) with (1 # 100). lra.
Qed.

Lemma round_inject_Z (z : Z) : Py.round (inject_Z z) = z.
Proof.
  unfold Py.round. cbv zeta. rewrite Qfloor_Z.
  destruct (inject_Z z - inject_Z z ?= 1 # 2) eqn:C; [ | reflexivity | ];
    compare_facts; lra.
Qed.

Lemma round2_zero (x : Q) : x == 0 -> Py.round2 x == 0.
Proof.
  intros E. rewrite (round2_comp _ _ E). reflexivity.
Qed.

Lemma round2_inject_Z (z : Z) : Py.round2 (inject_Z z) == inject_Z z.
Proof.
  unfold Py.round2.
  assert (inject_Z z * 100 == inject_Z (z * 100)) as E
    by (rewrite inject_Z_mult; reflexivity).
  rewrite (round_comp _ _ E), round_inject_Z, inject_Z_mult.
  change (inject_Z 100) with 100. field.
Qed.

End Rounding.

Section Paycheck.
Import MoneyQuest.
Open Scope Q_scope.

(** For non-negative hours and wage and a withholding rate between 0 and
    1, the figures of [compute_net_pay] are ordered, 0 <= withheld <=
    gross and 0 <= net <= gross, and, each being rounded on its own, net
    differs from gross - withheld by at most one cent. *)
Theorem compute_net_pay_consistent (hours wage rate : Q) :
  0 <= hours -> 0 <= wage -> 0 <= rate -> rate <= 1 ->
  let '(gross, withheld, net) := compute_net_pay hours wage rate in
  0 <= withheld /\ withheld <= gross /\ 0 <= net /\ net <= gross
  /\ Qabs (net - (gross - withheld)) <= 1 # 100.
Proof.
  intros Hh Hw Hr0 Hr1. unfold compute_net_pay. cbv zeta.
  set (g := hours * wage * 4).
  assert (0 <= g) as Hg.
  { subst g. pose proof (Qmult_le_0_compat _ _ Hh Hw). lra. }
  assert (0 <= g * rate) as Hwh by (now apply Qmult_le_0_compat).
  assert (g * rate <= g) as Hwg.
  { assert (0 <= g * (1 - rate)) by (apply Qmult_le_0_compat; lra). lra. }
  repeat split.
  - now apply round2_nonneg.
  - now apply round2_mono.
  - apply round2_nonneg. lra.
  - apply round2_mono. lra.
  - unfold Py.round2.
    pose proof (round_close (g * 100)) as Cg.
    pose proof (round_close (g * rate * 100)) as Cw.
    pose proof (round_close ((g - g * rate) * 100)) as Cn.
    set (zg := Py.round (g * 100)) in *.
    set (zw := Py.round (g * rate * 100)) in *.
    set (zn := Py.round ((g - g * rate) * 100)) in *.
    assert (-1 <= zn - (zg - zw) <= 1)%Z as Hz.
    { assert (inject_Z (zn - (zg - zw)) < 2 /\ -2 < inject_Z (zn - (zg - zw)))
        as [H1 H2].
      { unfold Z.sub.
        repeat (rewrite inject_Z_plus || rewrite inject_Z_opp). split; lra. }
      change 2 with (inject_Z 2) in H1. change (-2) with (inject_Z (-2)) in H2.
      rewrite <- Zlt_Qlt in H1, H2. lia. }
    destruct Hz as [Hz1 Hz2]. rewrite Zle_Qle in Hz1, Hz2.
    unfold Z.sub in Hz1, Hz2.
    repeat (rewrite inject_Z_plus in Hz1, Hz2
            || rewrite inject_Z_opp in Hz1, Hz2).
    change (inject_Z (-1)) with (-1) in Hz1. change (inject_Z 1) with 1 in Hz2.
    apply Qabs_Qle_condition. unfold Qdiv. change (/ 100) with (1 # 100).
    split; lra.
Qed.

(** The default income: 20 hours a week at 15 an hour, 12 percent
    withheld. *)
Lemma compute_net_pay_consistent_witness :
  let '(gross, withheld, net) := compute_net_pay 20 15 (12 # 100) in
  0 <= withheld /\ withheld <= gross /\ 0 <= net /\ net <= gross
  /\ Qabs (net - (gross - withheld)) <= 1 # 100.
Proof.
  apply (compute_net_pay_consistent 20 15 (12 # 100)); vm_compute; congruence.
Defined.

End Paycheck.

Section CreditScore.
Import MoneyQuest.

Lemma ltb_lt (x y : Q) : Py.ltb x y = true <-> (x < y)%Q.
Proof.
  unfold Py.ltb. rewrite Qlt_alt. destruct (x ?= y)%Q; split; congruence.
Qed.

Lemma ltb_ge (x y : Q) : Py.ltb x y = false <-> (y <= x)%Q.
Proof.
  rewrite <- not_true_iff_false, ltb_lt. split; [apply Qnot_lt_le | apply Qle_not_lt].
Qed.

Ltac score_cases :=
  unfold update_credit_score, clamp_score; cbv zeta;
  repeat match goal with
  | |- context [Py.ltb ?u ?c] =>
      let E := fresh "E" in
      destruct (Py.ltb u c) eqn:E;
        [apply ltb_lt in E | apply ltb_ge in E]
  end.

Lemma update_credit_score_range
    (current : Z) (utilization : Q) (on_time : bool) :
  300 <= update_credit_score current utilization on_time <= 850.
Proof. score_cases; destruct on_time; lia. Qed.

(** [update_credit_score] always returns a score in [300, 850]; it never
    returns less for a higher current score, for a lower utilization, or
    for an on-time payment instead of a late one; and from a score within
    [300, 850] it moves by at most +14 and -37. *)
Theorem update_credit_score_monotone
    (current current' : Z) (utilization utilization' : Q) (on_time : bool) :
  300 <= update_credit_score current utilization on_time <= 850
  /\ (current <= current' ->
      update_credit_score current utilization on_time
      <= update_credit_score current' utilization on_time)
  /\ ((utilization <= utilization')%Q ->
      update_credit_score current utilization' on_time
      <= update_credit_score current utilization on_time)
  /\ update_credit_score current utilization false
     <= update_credit_score current utilization true
  /\ (300 <= current <= 850 ->
      current - 37 <= update_credit_score current utilization on_time
      <= current + 14).
Proof.
  split; [|split; [intros H|split; [intros H|split; [|intros H]]]];
    score_cases; destruct on_time; cbv iota; first [lia | exfalso; lra].
Qed.

End CreditScore.

Section BudgetEdges.
Import MoneyQuest.
Open Scope Q_scope.



(** When the fixed needs are not below the net income, nothing goes to
    wants, savings or leftover, and the needs spend is the larger of the
    fixed needs and the planned needs, so at least the fixed needs. *)
Theorem apply_budget_income_short (net needs_p wants_p savings_p fixed : Q) :
  0 <= net -> 0 <= wants_p -> 0 <= savings_p -> net <= fixed ->
  let a := apply_budget net needs_p wants_p savings_p fixed in
  wants_spend a == 0 /\ savings_add a == 0 /\ leftover a == 0
  /\ needs_spend a = Py.round2 (Qmax fixed (net * needs_p))
  /\ fixed - (1 # 200) <= needs_spend a.
Proof.
  intros Hn Hwp Hsp Hshort a.
  pose proof (Qmult_le_0_compat _ _ Hn Hwp) as Hw.
  pose proof (Qmult_le_0_compat _ _ Hn Hsp) as Hs.
  subst a. unfold apply_budget, budget_amounts.
  cbn [needs_spend wants_spend savings_add leftover].
  set (pw := net * wants_p) in *. set (ps := net * savings_p) in *.
  set (pn := net * needs_p) in *.
  clearbody pw ps pn.
  assert (fixed + Qmax 0 (pn - fixed) == Qmax fixed pn) as Hneeds
    by (name_minmax; split_minmax; lra).
  repeat split.
  - apply round2_zero. name_minmax. split_minmax; lra.
  - apply round2_zero. name_minmax. split_minmax; lra.
  - apply round2_zero. name_minmax. split_minmax; lra.
  - now apply round2_comp.
  - rewrite (round2_comp _ _ Hneeds).
    pose proof (round2_close (Qmax fixed pn)).
    pose proof (Q.le_max_l fixed pn). lra.
Qed.

(** Net income 100, fixed needs 130. *)
Lemma apply_budget_income_short_witness :
  let a := apply_budget 100 (5 # 10) (3 # 10) (2 # 10) 130 in
  wants_spend a == 0 /\ savings_add a == 0 /\ leftover a == 0
  /\ needs_spend a = Py.round2 (Qmax 130 (100 * (5 # 10)))
  /\ 130 - (1 # 200) <= needs_spend a.
Proof.
  apply (apply_budget_income_short 100 (5 # 10) (3 # 10) (2 # 10) 130);
    vm_compute; congruence.
Defined.

End BudgetEdges.

Section FixedNeeds.
Import MoneyQuest.

(** [fixed_needs_from_choices] is a whole number of dollars between 0
    and 200 (the dearest phone plan and commute), whatever the state holds
    as choices: an unknown decision, an unknown or empty option and the
    credit-card decision add nothing; with no choice made it is 0. *)
Theorem fixed_needs_from_choices_bounds (st : PlayerState) :
  exists cost : Z,
    (fixed_needs_from_choices st == inject_Z cost)%Q
    /\ 0 <= cost <= 200
    /\ (default ∅ (choices st) = ∅ -> cost = 0).
Proof.
  unfold fixed_needs_from_choices, CHOICES. cbn [foldl].
  unfold chosen_cost. cbn [c_id c_options].
  set (m := default ∅ (choices st)).
  assert (forall k v, m !! k = Some v -> m = ∅ -> False) as Hne.
  { intros k v Hk He. rewrite He in Hk. now rewrite lookup_empty in Hk. }
  destruct (m !! "phone_plan") as [p|] eqn:Hp;
    destruct (m !! "transit") as [t|] eqn:Ht;
    destruct (m !! "credit_card") as [c|] eqn:Hc;
    cbn [mbind option_bind options_get fmap option_fmap option_map];
    repeat (case_decide; cbn [mbind option_bind options_get fmap option_fmap
                              option_map snd]);
    match goal with
    | |- exists cost : Z, (Py.round2 ?q == _)%Q /\ _ =>
        let z := eval vm_compute in (Qnum q) in
        exists z; split; [vm_compute; reflexivity|];
        split; [lia|]; intros He; first [reflexivity | exfalso; eauto]
    end.
Qed.

End FixedNeeds.

Section CloseMonth.
Import MoneyQuest.

(** What [close_month] leaves alone, and what it appends. *)
Lemma close_month_frame (st : PlayerState) (fixed : Q) (limit : Z) :
  let r := close_month st fixed limit in
  month (state' r) = month st + 1
  /\ income (state' r) = income st
  /\ budget_needs (state' r) = budget_needs st
  /\ budget_wants (state' r) = budget_wants st
  /\ budget_savings (state' r) = budget_savings st
  /\ choices (state' r) = choices st
  /\ history (state' r) = Some (default [] (history st) ++ [snapshot r]).
Proof.
  unfold close_month. destruct (compute_net_pay _ _ _) as [[g w] n].
  repeat split.
Qed.

(** The snapshot holds the balances of the new state. *)
Lemma close_month_snapshot (st : PlayerState) (fixed : Q) (limit : Z) :
  let r := close_month st fixed limit in
  s_month (snapshot r) = month st
  /\ s_cash (snapshot r) = cash (state' r)
  /\ s_savings (snapshot r) = savings (state' r)
  /\ s_debt (snapshot r) = debt (state' r)
  /\ s_creditScore (snapshot r) = creditScore (state' r)
  /\ s_netWorth (snapshot r)
     = cash (state' r) + savings (state' r) - debt (state' r).
Proof.
  unfold close_month. destruct (compute_net_pay _ _ _) as [[g w] n].
  repeat split.
Qed.

Lemma close_month_ranges (st : PlayerState) (fixed : Q) (limit : Z) :
  let r := close_month st fixed limit in
  savings st <= savings (state' r)
  /\ 0 <= debt (state' r)
  /\ 300 <= creditScore (state' r) <= 850.
Proof.
  unfold close_month. destruct (compute_net_pay _ _ _) as [[g w] n].
  cbn [state' savings debt creditScore]. split; [|split].
  - rewrite <- (round_inject_Z (savings st)) at 1.
    apply round_mono.
    assert (0 <= savings_add (apply_budget n (budget_needs st)
                                (budget_wants st) (budget_savings st) fixed))%Q.
    { unfold apply_budget. cbn [savings_add]. apply round2_nonneg.
      unfold budget_amounts. cbn [savings_add]. apply Q.le_max_l. }
    lra.
  - unfold card_step. cbn [new_debt]. lia.
  - apply update_credit_score_range.
Qed.

(** One call of [close_month]: the month advances by one, exactly one
    snapshot is appended to the history, income, budget shares and choices
    are untouched; the snapshot holds the month just closed and the new
    balances, with net worth = cash + savings - debt; savings never
    decrease, the new debt is never negative and the new credit score is
    within [300, 850].  This holds for every state, fixed cost and credit
    limit. *)
Theorem close_month_bookkeeping (st : PlayerState) (fixed : Q) (limit : Z) :
  let r := close_month st fixed limit in
  let st' := state' r in
  month st' = month st + 1
  /\ history st' = Some (default [] (history st) ++ [snapshot r])
  /\ (income st' = income st /\ budget_needs st' = budget_needs st
      /\ budget_wants st' = budget_wants st
      /\ budget_savings st' = budget_savings st /\ choices st' = choices st)
  /\ snapshot r
     = mkSnapshot (month st) (cash st' + savings st' - debt st') (cash st')
                  (savings st') (debt st') (creditScore st')
  /\ savings st <= savings st'
  /\ 0 <= debt st'
  /\ 300 <= creditScore st' <= 850.
Proof.
  cbv zeta.
  pose proof (close_month_frame st fixed limit) as F.
  pose proof (close_month_snapshot st fixed limit) as S.
  pose proof (close_month_ranges st fixed limit) as R.
  cbv zeta in F, S, R.
  set (r := close_month st fixed limit) in *. clearbody r.
  destruct F as (F1 & F2 & F3 & F4 & F5 & F6 & F7).
  destruct S as (S1 & S2 & S3 & S4 & S5 & S6).
  destruct R as (R1 & R2 & R3).
  split; [assumption|]. split; [assumption|]. split; [done|].
  split; [|done].
  destruct (snapshot r) as [m nw c s d k].
  cbn [s_month s_netWorth s_cash s_savings s_debt s_creditScore]
    in S1, S2, S3, S4, S5, S6.
  congruence.
Qed.

Lemma play_months_S (n : nat) (st : PlayerState) :
  play_months (S n) st = close_month_button (play_months n st).
Proof. reflexivity. Qed.

(** After [n] presses of the Close Month button: the month is [n] later,
    income, budget shares and choices are as before, savings have not
    decreased, and the history has grown by exactly [n] snapshots, for the
    months [month], [month + 1], ..., each with net worth = cash + savings -
    debt, a debt that is not negative and a score within [300, 850], the
    last one holding the balances of the state. *)
Theorem play_months_invariants (n : nat) (st : PlayerState) :
  let st' := play_months n st in
  month st' = month st + Z.of_nat n
  /\ (income st' = income st /\ budget_needs st' = budget_needs st
      /\ budget_wants st' = budget_wants st
      /\ budget_savings st' = budget_savings st /\ choices st' = choices st)
  /\ savings st <= savings st'
  /\ exists snaps,
       default [] (history st') = default [] (history st) ++ snaps
       /\ s_month <$> snaps = (fun i => month st + Z.of_nat i) <$> seq 0 n
       /\ Forall snapshot_ok snaps
       /\ (n <> 0%nat ->
           last snaps
           = Some (mkSnapshot (month st' - 1)
                     (cash st' + savings st' - debt st') (cash st')
                     (savings st') (debt st') (creditScore st'))).
Proof.
  induction n as [|n IH]; cbv zeta.
  - change (play_months 0 st) with st. split; [lia|]. split; [done|]. split; [lia|].
    exists []. rewrite app_nil_r. split; [done|]. split; [done|].
    split; [constructor | done].
  - rewrite play_months_S. cbv zeta in IH.
    destruct IH as (M & (I1 & I2 & I3 & I4 & I5) & Sv & snaps & H1 & H2 & H3 & _).
    unfold close_month_button.
    pose proof (close_month_frame (play_months n st)
                  (fixed_needs_from_choices (play_months n st))
                  default_credit_limit) as F.
    pose proof (close_month_snapshot (play_months n st)
                  (fixed_needs_from_choices (play_months n st))
                  default_credit_limit) as S.
    pose proof (close_month_ranges (play_months n st)
                  (fixed_needs_from_choices (play_months n st))
                  default_credit_limit) as R.
    cbv zeta in F, S, R.
    set (r := close_month (play_months n st)
                (fixed_needs_from_choices (play_months n st))
                default_credit_limit) in *.
    set (p := play_months n st) in *. clearbody r p.
    destruct F as (F1 & F2 & F3 & F4 & F5 & F6 & F7).
    destruct S as (S1 & S2 & S3 & S4 & S5 & S6).
    destruct R as (R1 & R2 & R3).
    split; [lia|]. split; [repeat split; congruence|]. split; [lia|].
    exists (snaps ++ [snapshot r]). split; [|split; [|split]].
    + rewrite F7. cbn [default]. rewrite H1. now rewrite app_assoc.
    + rewrite fmap_app, H2, seq_S, fmap_app. cbn [fmap list_fmap].
      do 2 f_equal. rewrite S1, M. reflexivity.
    + apply Forall_app. split; [assumption|]. constructor; [|constructor].
      unfold snapshot_ok. rewrite S6, S4, S5. repeat split; lia.
    + intros _. rewrite last_snoc. f_equal.
      destruct (snapshot r) as [m nw c s d k].
      cbn [s_month s_netWorth s_cash s_savings s_debt s_creditScore]
        in S1, S2, S3, S4, S5, S6.
      rewrite F1. f_equal; lia.
Qed.

End CloseMonth.

Section CardDebt.
Import MoneyQuest.

Lemma close_month_new_debt (st : PlayerState) (fixed : Q) (limit : Z) :
  let after := (102 * debt st + 99) / 100 in
  debt (state' (close_month st fixed limit))
  = Z.max 0 (after - (if pay_full_choice st then after
                       else Z.min 25 (debt st))).
Proof.
  unfold close_month. destruct (compute_net_pay _ _ _) as [[g w] n].
  cbn [state' debt]. unfold card_step. cbn [new_debt].
  now rewrite ceil_interest.
Qed.

Lemma close_month_new_score (st : PlayerState) (fixed : Q) (limit : Z) :
  debt st = 0 ->
  creditScore (state' (close_month st fixed limit))
  = Z.max 300 (Z.min 850 (creditScore st + 14)).
Proof.
  intros Hd.
  pose proof (close_month_new_debt st fixed limit) as Hnew. cbv zeta in Hnew.
  unfold close_month in *. destruct (compute_net_pay _ _ _) as [[g w] n].
  cbn [state' debt creditScore] in *.
  rewrite Hnew. unfold card_step. cbn [on_time]. rewrite ceil_interest, Hd.
  change ((102 * 0 + 99) / 100) with 0. change (Z.min 25 0) with 0.
  assert ((if pay_full_choice st then 0 else 0) = 0) as -> by (now destruct (pay_full_choice st)).
  change (Z.max 0 (0 - 0)) with 0. change (0 <=? 0) with true.
  assert ((if limit =? 0 then 0%Q else (inject_Z 0 / inject_Z limit)%Q) == 0)%Q
    as Hu.
  { destruct (limit =? 0); [reflexivity|]. unfold Qdiv. change (inject_Z 0) with 0%Q. ring. }
  unfold update_credit_score, clamp_score. cbv zeta.
  assert (Py.ltb (if limit =? 0 then 0%Q else (inject_Z 0 / inject_Z limit)%Q)
                 (10 # 100) = true) as ->.
  { apply ltb_lt. rewrite Hu. reflexivity. }
  f_equal. f_equal. lia.
Qed.

Lemma play_months_choices (n : nat) (st : PlayerState) :
  choices (play_months n st) = choices st.
Proof.
  induction n as [|n IH]; [reflexivity|].
  rewrite play_months_S. unfold close_month_button.
  destruct (close_month_frame (play_months n st)
              (fixed_needs_from_choices (play_months n st))
              default_credit_limit) as (_ & _ & _ & _ & _ & F & _).
  congruence.
Qed.

Lemma pay_full_choice_choices (st st' : PlayerState) :
  choices st' = choices st -> pay_full_choice st' = pay_full_choice st.
Proof. unfold pay_full_choice. now intros ->. Qed.

(** Starting without debt and with a score within [300, 850], the debt
    stays 0 and the credit score after [n] presses of the Close Month
    button is min(850, score + 14 n), whatever the budget and the choices,
    the credit-card choice included. *)
Theorem play_months_debt_free (n : nat) (st : PlayerState) :
  debt st = 0 -> 300 <= creditScore st <= 850 ->
  debt (play_months n st) = 0
  /\ creditScore (play_months n st)
     = Z.min 850 (creditScore st + 14 * Z.of_nat n).
Proof.
  intros Hd Hs. induction n as [|n [IH1 IH2]].
  - change (play_months 0 st) with st. split; [assumption | lia].
  - rewrite play_months_S. unfold close_month_button.
    set (p := play_months n st) in *. set (f := fixed_needs_from_choices p).
    clearbody f p. split.
    + rewrite close_month_new_debt, IH1. cbv zeta.
      change ((102 * 0 + 99) / 100) with 0.
      destruct (pay_full_choice p); reflexivity.
    + rewrite close_month_new_score by assumption. rewrite IH2. lia.
Qed.

(** Twelve months of a new game. *)
Lemma play_months_debt_free_witness :
  debt (play_months 12 new_game) = 0
  /\ creditScore (play_months 12 new_game)
     = Z.min 850 (creditScore new_game + 14 * Z.of_nat 12).
Proof.
  apply (play_months_debt_free 12 new_game); [reflexivity | split; vm_compute; congruence].
Defined.

Lemma minimum_payment_step (d : Z) :
  0 < d ->
  let d' := Z.max 0 ((102 * d + 99) / 100 - Z.min 25 d) in
  0 < d' /\ (d <= 24 -> d' = 1) /\ (d' <= d <-> d <= 1250).
Proof.
  intros Hd d'. subst d'.
  destruct (Z.min_spec 25 d) as [[? ->] | [? ->]];
    repeat split; try intros ?; Z.div_mod_to_equations; lia.
Qed.

(** With a positive debt: the pay-in-full choice clears it in one month;
    with any other choice it never reaches 0, however many months are
    played; a debt of at most 24 becomes 1, and the debt does not grow
    exactly when it is at most 1250. *)
Theorem card_debt_dynamics (n : nat) (st : PlayerState) :
  0 < debt st ->
  (pay_full_choice st = true -> debt (close_month_button st) = 0)
  /\ (pay_full_choice st = false ->
      0 < debt (play_months n st)
      /\ (debt st <= 24 -> debt (close_month_button st) = 1)
      /\ (debt (close_month_button st) <= debt st <-> debt st <= 1250)).
Proof.
  intros Hd. split; intros Hc.
  - unfold close_month_button. rewrite close_month_new_debt, Hc. lia.
  - split.
    + induction n as [|n IH]; [assumption|].
      rewrite play_months_S. unfold close_month_button.
      rewrite close_month_new_debt.
      rewrite (pay_full_choice_choices st) by apply play_months_choices.
      rewrite Hc. now apply minimum_payment_step.
    + unfold close_month_button. rewrite close_month_new_debt, Hc.
      now apply minimum_payment_step.
Qed.

(** A debt of 24 under the minimum-payment choice, over twelve
    months. *)
Lemma card_debt_dynamics_witness :
  (pay_full_choice (with_debt 24 "min_pay") = true ->
   debt (close_month_button (with_debt 24 "min_pay")) = 0)
  /\ (pay_full_choice (with_debt 24 "min_pay") = false ->
      0 < debt (play_months 12 (with_debt 24 "min_pay"))
      /\ (debt (with_debt 24 "min_pay") <= 24 ->
          debt (close_month_button (with_debt 24 "min_pay")) = 1)
      /\ (debt (close_month_button (with_debt 24 "min_pay"))
          <= debt (with_debt 24 "min_pay")
          <-> debt (with_debt 24 "min_pay") <= 1250)).
Proof.
  apply (card_debt_dynamics 12 (with_debt 24 "min_pay")). reflexivity.
Defined.

End CardDebt.

(** ** Further properties of the save files *)

Ltac bind_cases H :=
  repeat match type of H with
  | (?e ≫= _) = Some _ =>
      let E := fresh "E" in
      destruct e eqn:E; cbn [mbind option_bind] in H; [|discriminate H]
  end.

Section SaveFiles.
Import MoneyQuest.

Variable int_of_str : string -> option Z.
Variable float_of_str : string -> option Q.

Lemma import_save_shape (data : json) (st : PlayerState) :
  import_save int_of_str float_of_str data = Some st ->
  is_Some (choices st) /\ is_Some (history st).
Proof.
  unfold import_save. intros H. bind_cases H.
  injection H as <-. cbn [choices history]. eauto.
Qed.

(** Every state [import_save] returns holds a choices map and a history
    list, and saving it and loading it again gives the same state. *)
Theorem import_save_stable (data : json) (st : PlayerState) :
  import_save int_of_str float_of_str data = Some st ->
  is_Some (choices st) /\ is_Some (history st)
  /\ import_save int_of_str float_of_str (export_save st) = Some st.
Proof.
  intros H. destruct (import_save_shape data st H) as [Hc Hh].
  split; [assumption|]. split; [assumption|].
  now apply player_roundtrip.
Qed.

(** The state [get_state] returns always holds a choices map and a
    history list; [get_state] changes nothing more on a second call, nor on
    a stored state that holds both; and its result survives
    [export_save] followed by [import_save]. *)
Theorem get_state_roundtrip (stored : option PlayerState) :
  let st := get_state stored in
  is_Some (choices st) /\ is_Some (history st)
  /\ get_state (Some st) = st
  /\ (is_Some (choices (default new_game stored)) ->
      is_Some (history (default new_game stored)) ->
      st = default new_game stored)
  /\ import_save int_of_str float_of_str (export_save st) = Some st.
Proof.
  cbv zeta. unfold get_state.
  destruct (default new_game stored) as [m c s d k i bn bw bs ch hi].
  cbn [choices history month cash savings debt creditScore income
       budget_needs budget_wants budget_savings default].
  split; [eauto|]. split; [eauto|]. split; [reflexivity|].
  split; [intros [x ->] [y ->]; reflexivity|].
  apply player_roundtrip; cbn [choices history]; eauto.
Qed.

Lemma import_save_history_entry
    (d s : gmap string json) (l : list json) (x : json) :
  d !! "state" = Some (JObj s) ->
  s !! "history" = Some (JArr l) ->
  x ∈ l -> snapshot_of_json x = None ->
  import_save int_of_str float_of_str (JObj d) = None.
Proof.
  intros Hs Hh Hx Hbad. unfold import_save.
  cbn [Json.as_dict mbind option_bind].
  change (Json.get "state" (JObj ∅) d) with (default (JObj ∅) (d !! "state")).
  rewrite Hs.
  change (default (JObj ∅) (Some (JObj s))) with (JObj s).
  cbn [Json.as_dict mbind option_bind].
  repeat match goal with
  | |- (history_of_json _ ≫= _) = None => fail 1
  | |- (?e ≫= _) = None =>
      destruct e; cbn [mbind option_bind]; [|reflexivity]
  end.
  change (Json.get "history" (JArr []) s)
    with (default (JArr []) (s !! "history")).
  rewrite Hh. change (default (JArr []) (Some (JArr l))) with (JArr l).
  cbn [history_of_json].
  destruct (mapM snapshot_of_json l) as [hs|] eqn:E; [|reflexivity].
  exfalso. assert (is_Some (mapM snapshot_of_json l)) as Hsome by eauto.
  rewrite mapM_is_Some in Hsome. rewrite Forall_forall in Hsome.
  specialize (Hsome x Hx). cbn in Hsome. rewrite Hbad in Hsome.
  now destruct Hsome.
Qed.

Lemma snapshot_of_json_keys (o : gmap string json) :
  is_Some (snapshot_of_json (JObj o)) -> dom o = list_to_set snapshot_fields.
Proof.
  unfold snapshot_of_json. cbn [Json.as_dict mbind option_bind].
  destruct (Json.keys_within snapshot_fields o) eqn:K;
    [|intros [? ?]; discriminate].
  unfold Json.keys_within in K. apply bool_decide_eq_true in K.
  intros [h H].
  destruct (o !! "month") as [v1|] eqn:E1; [|discriminate H].
  destruct (o !! "netWorth") as [v2|] eqn:E2;
    [|cbn in H; destruct (Json.as_int v1); discriminate H].
  destruct (o !! "cash") as [v3|] eqn:E3;
    [|cbn in H; destruct (Json.as_int v1), (Json.as_int v2); discriminate H].
  destruct (o !! "savings") as [v4|] eqn:E4;
    [|cbn in H; destruct (Json.as_int v1), (Json.as_int v2),
        (Json.as_int v3); discriminate H].
  destruct (o !! "debt") as [v5|] eqn:E5;
    [|cbn in H; destruct (Json.as_int v1), (Json.as_int v2),
        (Json.as_int v3), (Json.as_int v4); discriminate H].
  destruct (o !! "creditScore") as [v6|] eqn:E6;
    [|cbn in H; destruct (Json.as_int v1), (Json.as_int v2),
        (Json.as_int v3), (Json.as_int v4), (Json.as_int v5);
      discriminate H].
  clear H. apply set_eq. intros k. rewrite elem_of_dom. split.
  - intros [v Hv]. apply elem_of_list_to_set. exact (K k v Hv).
  - intros Hk. apply elem_of_list_to_set in Hk. unfold snapshot_fields in Hk.
    repeat (apply elem_of_cons in Hk as [-> | Hk]; [eauto|]).
    now apply elem_of_nil in Hk.
Qed.

(** A save whose history holds one entry that is not a snapshot (an
    object with a missing or an unknown field, or no object at all) is
    rejected as a whole: [import_save] returns [None], whatever the rest
    of the save holds. *)
Theorem import_save_rejects_bad_history
    (d s : gmap string json) (l : list json) (x : json) :
  d !! "state" = Some (JObj s) ->
  s !! "history" = Some (JArr l) ->
  x ∈ l -> not_a_snapshot x ->
  import_save int_of_str float_of_str (JObj d) = None.
Proof.
  intros Hs Hh Hx Hbad. apply (import_save_history_entry d s l x); try done.
  destruct x as [| | | | | |o]; try reflexivity.
  destruct (snapshot_of_json (JObj o)) eqn:E; [|reflexivity].
  exfalso. apply Hbad. apply snapshot_of_json_keys. eauto.
Qed.

End SaveFiles.

Section SaveFileExamples.
Import MoneyQuest.

(** The save of a new game. *)
Lemma import_save_stable_witness :
  is_Some (choices new_game) /\ is_Some (history new_game)
  /\ import_save (fun _ => None) (fun _ => None) (export_save new_game)
     = Some new_game.
Proof.
  apply (import_save_stable (fun _ => None) (fun _ => None)
           (export_save new_game) new_game).
  vm_compute. reflexivity.
Defined.

(** A history entry that holds only the month. *)
Lemma import_save_rejects_bad_history_witness :
  import_save (fun _ => None) (fun _ => None)
    (JObj {[ "state" :=
               JObj {[ "cash" := JInt 5;
                       "history" := JArr [JObj {[ "month" := JInt 1 ]}] ]} ]})
  = None.
Proof.
  eapply (import_save_rejects_bad_history (fun _ => None) (fun _ => None)
            _ _ [JObj {[ "month" := JInt 1 ]}] (JObj {[ "month" := JInt 1 ]}));
    [reflexivity | reflexivity | apply list_elem_of_singleton; reflexivity
    | intros H; apply (f_equal (fun X => bool_decide ("cash" ∈ X))) in H;
      vm_compute in H; discriminate H].
Defined.

(** A save that kept only the debt. *)
Lemma import_partial_save_witness :
  import_save (fun _ => None) (fun _ => None)
    (partial_save (fun k => String.eqb k "debt")
       (with_debt 24 "min_pay"))
  = Some (mkPlayer 1 0 0 24 680 Income_default (5 # 10) (3 # 10) (2 # 10)
            (Some ∅) (Some [])).
Proof.
  apply (import_partial_save (fun _ => None) (fun _ => None)
           (fun k => String.eqb k "debt") (with_debt 24 "min_pay"));
    eexists; reflexivity.
Defined.

End SaveFileExamples.

Section QuizSaveFile.
Import Quiz.

Lemma keys_within_filter (names : list string) (keep : string -> bool)
    (o : gmap string json) :
  Json.keys_within names o = true ->
  Json.keys_within names (filter (fun kv => keep kv.1 = true) o) = true.
Proof.
  unfold Json.keys_within. intros H. apply bool_decide_eq_true in H.
  apply bool_decide_eq_true_2. intros k v Hk.
  apply map_lookup_filter_Some in Hk as [Hk _]. exact (H k v Hk).
Qed.

Lemma opt_str_if (b : bool) (x : option string) :
  Json.as_opt_str (if b then Json.of_opt_str x else JNull)
  = Some (if b then x else None).
Proof. destruct b, x; reflexivity. Qed.

(** A quiz save from which keys were dropped loads, each kept field as it
    was saved and each dropped field with its [SaveState] default. *)
Theorem from_json_missing_keys (keep : string -> bool) (sv : SaveState) :
  from_json (Json.restrict keep (to_json sv))
  = Some (mkSave
            (if keep "display_name" then display_name sv else "You")
            (if keep "total_points" then total_points sv else 0)
            (if keep "streak" then streak sv else 0)
            (if keep "last_played" then last_played sv else None)
            (if keep "streak_freezes" then streak_freezes sv else 3)
            (if keep "history" then history sv else [])
            (if keep "category_stats" then category_stats sv else ∅)
            (if keep "badges" then badges sv else ∅)
            (if keep "room_code" then room_code sv else None)).
Proof.
  destruct sv as [n t k l f h c b r].
  unfold from_json, to_json, Json.restrict.
  cbn [Json.as_dict mbind option_bind].
  cbn [display_name total_points streak last_played streak_freezes history
       category_stats badges room_code].
  rewrite keys_within_filter.
  2:{ apply keys_within_literal.
      rewrite !dom_insert_L, dom_singleton_L. cbn. set_solver. }
  rewrite !get_filter. unfold Json.get. simplify_map_eq.
  rewrite !opt_str_if.
  destruct (keep "display_name"), (keep "total_points"), (keep "streak"),
    (keep "streak_freezes"), (keep "history");
    cbn [Json.as_str Json.as_int Json.as_list mbind option_bind];
    (destruct (keep "category_stats");
     cbn [Json.as_dict mbind option_bind];
     [rewrite (decode_map_fmap _ _ c catstat_roundtrip)|];
     cbn [mbind option_bind];
     (destruct (keep "badges"); cbn [Json.as_dict mbind option_bind];
      [rewrite (decode_map_fmap Json.as_bool JBool b) by done|];
      reflexivity)).
Qed.



End QuizSaveFile.

(** ** Further properties of the quiz session *)

Section SessionSteps.
Import Quiz.







End SessionSteps.

Section SessionInvariant.
Import Quiz.

Variable now : Z.
Variable sv0 : SaveState.
Variable qs : list Question.
Hypothesis qs_nonempty : qs <> [].
Hypothesis sv0_ok : last_played_ok sv0.













End SessionInvariant.

Section SessionRuns.
Import Quiz.





End SessionRuns.

Section CategoryStats.
Import Quiz.

Lemma add_cat_stat_lookup (stats : gmap string CatStat) (r : QAResult)
    (cat : string) :
  cat_stat (add_cat_stat stats r) cat
  = if String.eqb (category r) cat
    then mkCat (c_correct (cat_stat stats cat)
                + (if correct r then 1 else 0))
               (c_attempted (cat_stat stats cat) + 1)
    else cat_stat stats cat.
Proof.
  unfold cat_stat, add_cat_stat.
  destruct (String.eqb_spec (category r) cat) as [<- | Hne].
  - now rewrite lookup_insert_eq.
  - now rewrite lookup_insert_ne.
Qed.

Lemma correct_count_cons (r : QAResult) (rs : list QAResult) :
  correct_count (r :: rs)
  = if correct r then 1 + correct_count rs else correct_count rs.
Proof. reflexivity. Qed.

Lemma correct_count_bounds (rs : list QAResult) :
  0 <= correct_count rs <= Z.of_nat (length rs).
Proof.
  induction rs as [|r rs IH]; [done|].
  rewrite correct_count_cons. cbn [length]. destruct (correct r); lia.
Qed.

(** Folding [add_cat_stat] over the results of a day: for every category
    the attempts grow by the number of its results and the correct count by
    the number of its correct results; so counters with 0 <= correct <=
    attempted keep that shape. *)
Theorem add_cat_stat_counts (stats : gmap string CatStat)
    (rs : list QAResult) (cat : string) :
  let stats' := foldl add_cat_stat stats rs in
  c_attempted (cat_stat stats' cat)
  = c_attempted (cat_stat stats cat)
    + Z.of_nat (length (in_category cat rs))
  /\ c_correct (cat_stat stats' cat)
     = c_correct (cat_stat stats cat)
       + correct_count (in_category cat rs)
  /\ (0 <= c_correct (cat_stat stats cat) <= c_attempted (cat_stat stats cat)
      -> 0 <= c_correct (cat_stat stats' cat)
         <= c_attempted (cat_stat stats' cat)).
Proof.
  cbv zeta. revert stats. induction rs as [|r rs IH]; intros stats.
  - cbn. split; [lia|]. split; [lia|]. done.
  - cbn [foldl]. destruct (IH (add_cat_stat stats r)) as (A & C & _).
    rewrite A, C, add_cat_stat_lookup. unfold in_category in *.
    cbn [List.filter].
    pose proof (correct_count_bounds
                  (List.filter (fun r0 => String.eqb (category r0) cat) rs))
      as Hcc.
    destruct (String.eqb (category r) cat).
    + rewrite correct_count_cons. cbn [c_attempted c_correct length].
      destruct (correct r); repeat split; lia.
    + repeat split; lia.
Qed.

End CategoryStats.

Section Dates.

Lemma digit_val_digit (n : Z) : Date.digit_val (Date.digit n) = Some (n mod 10).
Proof.
  unfold Date.digit. pose proof (Z.mod_pos_bound n 10 eq_refl) as H.
  set (k := n mod 10) in *. clearbody k.
  assert (k = 0 \/ k = 1 \/ k = 2 \/ k = 3 \/ k = 4 \/ k = 5 \/ k = 6 \/ k = 7
          \/ k = 8 \/ k = 9) as Hk by lia.
  repeat (destruct Hk as [-> | Hk]; [reflexivity|]). now subst k.
Qed.

Lemma days_in_month_le (y m : Z) : Date.days_in_month y m <= 31.
Proof. unfold Date.days_in_month. repeat case_match; lia. Qed.

Lemma fromisoformat_isoformat (d : Date.t) :
  Date.valid d = true -> Date.fromisoformat (Date.isoformat d) = Some d.
Proof.
  intros Hv. pose proof Hv as Hv'. unfold Date.valid in Hv'.
  repeat (apply andb_true_iff in Hv' as [Hv' ?]).
  repeat match goal with
  | H : (_ <=? _) = true |- _ => apply Z.leb_le in H
  end.
  pose proof (days_in_month_le (Date.year d) (Date.month d)).
  unfold Date.isoformat, Date.pad4, Date.pad2. cbn [Date.fromisoformat].
  rewrite !digit_val_digit. cbn [mbind option_bind].
  set (d' := Date.mk _ _ _).
  assert (d' = d) as ->; [|now rewrite Hv].
  subst d'. destruct d as [y m dd]. cbn [Date.year Date.month Date.day] in *.
  f_equal; Z.div_mod_to_equations; lia.
Qed.

Lemma isoformat_nonempty (d : Date.t) : Date.isoformat d <> EmptyString.
Proof. discriminate. Qed.

End Dates.

Section StreakStable.
Import Quiz.

(** For a valid playing date and a save whose stored date is absent or a
    date, [update_streak_with_freeze] returns, and a second call for the
    same date changes nothing; the call uses at most one freeze, and only
    when one is left; the streak stays, grows by one or restarts at 1; and
    name, points, history, category statistics, badges and room code are
    untouched. *)
Theorem update_streak_with_freeze_stable (save : SaveState) (d : Date.t) :
  Date.valid d = true -> last_played_ok save ->
  exists save',
    update_streak_with_freeze save d = Some save'
    /\ update_streak_with_freeze save' d = Some save'
    /\ (streak_freezes save' = streak_freezes save
        \/ 0 < streak_freezes save
           /\ streak_freezes save' = streak_freezes save - 1)
    /\ (streak save' = streak save \/ streak save' = streak save + 1
        \/ streak save' = 1)
    /\ (display_name save' = display_name save
        /\ total_points save' = total_points save
        /\ history save' = history save
        /\ category_stats save' = category_stats save
        /\ badges save' = badges save /\ room_code save' = room_code save).
Proof.
  intros Hv Hok.
  destruct (update_streak_total save d Hok) as [save' H].
  exists save'. split; [exact H|].
  pose proof (update_streak_keeps _ _ _ H) as Hkeep.
  assert (forall k f, update_streak_with_freeze
            (mkSave (display_name save) (total_points save) k
               (Some (Date.isoformat d)) f (history save)
               (category_stats save) (badges save) (room_code save)) d
          = Some (mkSave (display_name save) (total_points save) k
               (Some (Date.isoformat d)) f (history save)
               (category_stats save) (badges save) (room_code save)))
    as Hsame.
  { intros k f. unfold update_streak_with_freeze. cbn [last_played].
    destruct (Date.isoformat d) eqn:E; [now apply isoformat_nonempty in E|].
    rewrite <- E, (fromisoformat_isoformat d Hv). cbn [mbind option_bind].
    unfold Date.days_between. now rewrite Z.sub_diag. }
  unfold update_streak_with_freeze in H.
  destruct (last_played save) as [[|c lp]|] eqn:Hlp.
  - injection H as <-. cbn [streak streak_freezes]. rewrite Hsame. auto 10.
  - destruct (Date.fromisoformat (String c lp)) as [last|] eqn:El;
      cbn [mbind option_bind] in H; [|discriminate].
    destruct (Date.days_between d last =? 0) eqn:E0.
    { injection H as <-. unfold update_streak_with_freeze.
      rewrite Hlp, El. cbn [mbind option_bind]. rewrite E0. auto 10. }
    destruct (Date.days_between d last =? 1);
      [|destruct (1 <? Date.days_between d last);
        [destruct (0 <? streak_freezes save) eqn:Ef|]];
      injection H as <-; cbn [streak streak_freezes]; rewrite Hsame;
      try apply Z.ltb_lt in Ef; auto 10.
  - injection H as <-. cbn [streak streak_freezes]. rewrite Hsame. auto 10.
Qed.

(** A save last played two days before. *)
Lemma update_streak_with_freeze_stable_witness :
  exists save',
    update_streak_with_freeze lapsed_save DEMO_DATE = Some save'
    /\ update_streak_with_freeze save' DEMO_DATE = Some save'
    /\ (streak_freezes save' = streak_freezes lapsed_save
        \/ 0 < streak_freezes lapsed_save
           /\ streak_freezes save' = streak_freezes lapsed_save - 1)
    /\ (streak save' = streak lapsed_save
        \/ streak save' = streak lapsed_save + 1 \/ streak save' = 1)
    /\ (display_name save' = display_name lapsed_save
        /\ total_points save' = total_points lapsed_save
        /\ history save' = history lapsed_save
        /\ category_stats save' = category_stats lapsed_save
        /\ badges save' = badges lapsed_save
        /\ room_code save' = room_code lapsed_save).
Proof.
  apply (update_streak_with_freeze_stable lapsed_save DEMO_DATE);
    [reflexivity | right; eexists; reflexivity].
Defined.

End StreakStable.

(** ** Further properties of the text helpers *)

Section OutputForm.
Import Text.
#[local] Open Scope N_scope.

Lemma chain_elem (ok : option N -> option N -> bool) (P : N -> Prop)
    (s : text) :
  (forall p c, ok p (Some c) = true -> P c) ->
  forall prev, chain ok prev s = true -> forall c, c ∈ s -> P c.
Proof.
  intros Hok. induction s as [|x s IH]; intros prev H c Hc.
  - now apply elem_of_nil in Hc.
  - cbn [chain] in H. apply andb_true_iff in H as [H1 H2].
    apply elem_of_cons in Hc as [-> | Hc]; [eauto | eapply IH; eauto].
Qed.

Lemma chain_pair (ok : option N -> option N -> bool) (l r : text) (a b : N) :
  forall prev, chain ok prev (l ++ a :: b :: r) = true ->
    ok (Some a) (Some b) = true.
Proof.
  induction l as [|x l IH]; intros prev H; cbn [app chain] in H.
  - apply andb_true_iff in H as [_ H].
    now apply andb_true_iff in H as [H _].
  - apply andb_true_iff in H as [_ H]. now apply IH in H.
Qed.

Lemma chain_last (ok : option N -> option N -> bool) (s : text) (c : N) :
  forall prev, chain ok prev s = true -> last s = Some c ->
    ok (Some c) None = true.
Proof.
  induction s as [|x s IH]; intros prev H Hl; [discriminate|].
  cbn [chain] in H. apply andb_true_iff in H as [_ H].
  destruct s as [|y s].
  - cbn in Hl. injection Hl as ->. exact H.
  - apply (IH (Some x)); [exact H | exact Hl].
Qed.

Lemma space_kind (c : N) : is_space c = true <-> kind_of c = KSpace.
Proof. rewrite kind_space. destruct (kind_of c); split; congruence. Qed.

Lemma ok_tidy_plain (p : option N) (c : N) :
  ok_tidy p (Some c) = true -> plain c = true.
Proof.
  intros H. apply tidy_single in H. unfold ok_single in H.
  now apply andb_true_iff in H as [H _].
Qed.

Lemma ok_tidy_pair (a b : N) :
  ok_tidy (Some a) (Some b) = true ->
  (kind_of a = KSpace -> kind_of b = KOther)
  /\ (kind_of a = KComma -> kind_of b <> KOther).
Proof.
  unfold ok_tidy, ok_commas, ok_single, plain_opt. cbn [is_kind].
  destruct (kind_of a), (kind_of b), (plain b); cbn; intros H;
    split; congruence.
Qed.

Lemma ok_tidy_ends (c : N) :
  ok_tidy None (Some c) = true \/ ok_tidy (Some c) None = true ->
  is_space c = false.
Proof.
  rewrite kind_space. unfold ok_tidy. cbn [is_kind].
  destruct (kind_of c), (plain_opt (Some c)); cbn; intros [H | H];
    congruence.
Qed.

(** The text [clean_text] returns, whatever the normalization does:
    it holds no zero-width and no control character, and no white space
    other than U+0020; it neither starts nor ends with a space; a space is
    never followed by a space, a comma or a period; and a comma is followed
    by a space, a comma, a period, or ends the text. *)
Theorem clean_text_output_form (nfkc : text -> text) (s : text) :
  let out := clean_text nfkc s in
  (forall c, c ∈ out ->
     is_zw c = false /\ is_ctrl c = false /\ (is_space c = true -> c = SPACE))
  /\ (forall c, head out = Some c \/ last out = Some c -> is_space c = false)
  /\ (forall l a b r, out = l ++ a :: b :: r ->
        (is_space a = true ->
         is_space b = false /\ b <> COMMA /\ b <> PERIOD)
        /\ (a = COMMA -> b = SPACE \/ b = COMMA \/ b = PERIOD)).
Proof.
  cbv zeta. unfold clean_text, normalize_unicode.
  pose proof (tidy_in_form (nfkc s)) as H.
  set (out := tidy (nfkc s)) in *. clearbody out.
  split; [|split].
  - apply (chain_elem ok_tidy _ out) with (prev := None); [|exact H].
    intros p c Hc. apply ok_tidy_plain in Hc.
    split; [now apply plain_not_zw|]. split; [now apply plain_not_ctrl|].
    intros Hs. apply plain_space_eq; [exact Hc | now apply space_kind].
  - intros c [Hh | Hl]; apply ok_tidy_ends.
    + left. apply chain_head in H. now rewrite Hh in H.
    + right. now apply (chain_last ok_tidy out c None).
  - intros l a b r E. rewrite E in H.
    pose proof (chain_pair ok_tidy l r a b None H) as Hab.
    assert (plain b = true) as Hb by (now apply ok_tidy_plain in Hab).
    apply ok_tidy_pair in Hab as [H1 H2]. split.
    + intros Ha. apply space_kind in Ha. specialize (H1 Ha).
      split; [|split].
      * rewrite kind_space, H1. reflexivity.
      * intros ->. discriminate H1.
      * intros ->. discriminate H1.
    + intros ->. specialize (H2 eq_refl).
      destruct (kind_of b) eqn:K; [| | |done].
      * left. now apply plain_space_eq.
      * right. left. now apply kind_comma_eq.
      * right. right. now apply kind_period_eq.
Qed.

End OutputForm.

Section AnswerCheckers.
Import Text.
#[local] Open Scope N_scope.

Lemma drop_ws_blank (s : text) : forallb is_space s = true -> drop_ws s = [].
Proof.
  induction s as [|c s IH]; [done|]. cbn [forallb drop_ws].
  intros H. apply andb_true_iff in H as [-> H]. now apply IH.
Qed.

Lemma strip_blank (s : text) : forallb is_space s = true -> strip s = [].
Proof. intros H. unfold strip. now rewrite (drop_ws_blank s H). Qed.

Lemma strip_padded (pre u post : text) :
  forallb is_space pre = true -> forallb is_space post = true ->
  strip (pre ++ u ++ post) = strip u.
Proof.
  intros Hpre Hpost. unfold strip.
  rewrite drop_ws_app, Hpre, drop_ws_app.
  destruct (forallb is_space u) eqn:Hu.
  - now rewrite (drop_ws_blank post Hpost), (drop_ws_blank u Hu).
  - rewrite rev_app_distr, drop_ws_app, forallb_space_rev, Hpost.
    reflexivity.
Qed.

(** [check_fib] ignores white space around either answer, is symmetric,
    and accepts an answer compared with itself. *)
Theorem check_fib_ignores_outer_space
    (lower : text -> text) (pre u post a : text) :
  forallb is_space pre = true -> forallb is_space post = true ->
  check_fib lower (pre ++ u ++ post) a = check_fib lower u a
  /\ check_fib lower a (pre ++ u ++ post) = check_fib lower a u
  /\ check_fib lower u a = check_fib lower a u
  /\ check_fib lower u u = true.
Proof.
  intros Hpre Hpost. unfold check_fib, norm.
  rewrite (strip_padded pre u post Hpre Hpost).
  split; [reflexivity|]. split; [reflexivity|]. split.
  - apply bool_decide_ext. split; congruence.
  - now apply bool_decide_eq_true_2.
Qed.

(** The answer "a b" with a space and a tab before it and a space after
    it. *)
Lemma check_fib_ignores_outer_space_witness :
  check_fib (fun s => s) ([32; 9] ++ [97; 32; 98] ++ [32]) [97; 32; 98]
  = check_fib (fun s => s) [97; 32; 98] [97; 32; 98]
  /\ check_fib (fun s => s) [97; 32; 98] ([32; 9] ++ [97; 32; 98] ++ [32])
     = check_fib (fun s => s) [97; 32; 98] [97; 32; 98]
  /\ check_fib (fun s => s) [97; 32; 98] [97; 32; 98]
     = check_fib (fun s => s) [97; 32; 98] [97; 32; 98]
  /\ check_fib (fun s => s) [97; 32; 98] [97; 32; 98] = true.
Proof.
  apply (check_fib_ignores_outer_space (fun s => s) [32; 9] [97; 32; 98]
           [32] [97; 32; 98]); reflexivity.
Defined.

(** [check_numeric_text] rejects a missing answer and an answer of white
    space only; with a negative tolerance it rejects every answer; and it
    ignores white space around the answer. *)
Theorem check_numeric_text_rejects
    (float_of_text : text -> option Q) (a t : Q) :
  check_numeric_text float_of_text None a t = false
  /\ (forall u, forallb is_space u = true ->
        check_numeric_text float_of_text (Some u) a t = false)
  /\ ((t < 0)%Q ->
      forall u, check_numeric_text float_of_text u a t = false)
  /\ (forall pre u post,
        forallb is_space pre = true -> forallb is_space post = true ->
        check_numeric_text float_of_text (Some (pre ++ u ++ post)) a t
        = check_numeric_text float_of_text (Some u) a t).
Proof.
  split; [reflexivity|]. split; [|split].
  - intros u Hu. unfold check_numeric_text. now rewrite (strip_blank u Hu).
  - intros Ht [u|]; [|reflexivity]. unfold check_numeric_text.
    destruct (strip u); [reflexivity|].
    destruct (float_of_text _) as [val|]; [|reflexivity].
    apply not_true_iff_false. intros H. apply Qle_bool_iff in H.
    pose proof (Qabs_nonneg (val - a)). lra.
  - intros pre u post Hpre Hpost. unfold check_numeric_text.
    now rewrite (strip_padded pre u post Hpre Hpost).
Qed.

End AnswerCheckers.

Section SanitizeQuestion.
Import Text.

Ltac alter_lookup :=
  repeat first
    [ rewrite lookup_alter_eq
    | rewrite lookup_alter_ne by (first [discriminate | congruence]) ].

(** [sanitize_question] keeps the keys of the question; it rewrites
    "choices" item by item when it is a list and "prompt", "explain",
    "answer_text" and "answer" when they are strings, and leaves every
    other key and every other kind of value as it is. *)
Theorem sanitize_question_frame (nfkc : text -> text)
    (q : gmap string qvalue) (k : string) :
  dom (sanitize_question nfkc q) = dom q
  /\ sanitize_question nfkc q !! k
     = (if bool_decide (k = "choices") then clean_choices nfkc
        else if bool_decide (k ∈ ["prompt"; "explain"; "answer_text"; "answer"])
             then clean_value nfkc
             else id) <$> q !! k.
Proof.
  unfold sanitize_question. cbv zeta. split.
  - now rewrite !dom_alter_L.
  - destruct (decide (k = "choices")) as [-> | H1].
    { rewrite bool_decide_eq_true_2 by done. alter_lookup. reflexivity. }
    rewrite (bool_decide_eq_false_2 (k = "choices")) by done.
    destruct (decide (k = "prompt")) as [-> | H2];
      [rewrite bool_decide_eq_true_2 by set_solver; alter_lookup;
       reflexivity|].
    destruct (decide (k = "explain")) as [-> | H3];
      [rewrite bool_decide_eq_true_2 by set_solver; alter_lookup;
       reflexivity|].
    destruct (decide (k = "answer_text")) as [-> | H4];
      [rewrite bool_decide_eq_true_2 by set_solver; alter_lookup;
       reflexivity|].
    destruct (decide (k = "answer")) as [-> | H5];
      [rewrite bool_decide_eq_true_2 by set_solver; alter_lookup;
       reflexivity|].
    rewrite bool_decide_eq_false_2
      by (rewrite !not_elem_of_cons; repeat split; try assumption;
          apply not_elem_of_nil).
    alter_lookup.
    now destruct (q !! k).
Qed.

End SanitizeQuestion.
